(** * pandas-ta indicators: vidya, t3, fwma, dpo, pvi, cmo, pgo, smi

    A shallow embedding of the indicator functions of [pandas_ta] and of the
    pandas operations they call, with the properties the specification
    states about them.

    Numbers.  A Python float is modelled by [float] below: an exact rational,
    one of the two infinities, or not-a-number.  Rounding of binary64 is not
    modelled; the special values and the rules by which they arise and
    propagate ([0/0], [x/0], [inf - inf], [0 * inf], [nan + x]) are.  A null
    entry of a pandas Series is [NaN], as in pandas.  What is proved below is
    therefore about which positions are null, which inputs a value is
    computed from and by which formula, not about the last digits of a
    value.

    Series.  A Series is the list of its values in index order.  The series
    an indicator combines carry the index of its inputs, so alignment is
    positional; where a filter removes positions ([pvi]) the labels are kept
    and the product is aligned on the union of the labels.

    Exceptions.  A call either returns [None] or a series; a Python exception
    (an ill-typed argument, a store that overflows) has no counterpart. *)

From Stdlib Require Import List ZArith QArith Qcanon Bool Lia Arith.
Import ListNotations.

Local Open Scope Qc_scope.

(** ** Numbers *)

Inductive float : Type :=
| Fin (q : Qc)
| PInf
| NInf
| NaN.

Definition Qc_eqb (a b : Qc) : bool := Qeq_bool a b.
Definition Qc_ltb (a b : Qc) : bool :=
  match (a ?= b)%Qc with Lt => true | _ => false end.

Definition float_eqb (x y : float) : bool :=
  match x, y with
  | Fin a, Fin b => Qc_eqb a b
  | PInf, PInf | NInf, NInf | NaN, NaN => true
  | _, _ => false
  end.

Definition isnull (x : float) : bool :=
  match x with NaN => true | _ => false end.

Definition F0 : float := Fin 0.
Definition F1 : float := Fin 1.

Definition fopp (x : float) : float :=
  match x with
  | Fin a => Fin (- a)
  | PInf => NInf
  | NInf => PInf
  | NaN => NaN
  end.

Definition fadd (x y : float) : float :=
  match x, y with
  | NaN, _ | _, NaN => NaN
  | Fin a, Fin b => Fin (a + b)
  | PInf, NInf | NInf, PInf => NaN
  | PInf, _ | _, PInf => PInf
  | NInf, _ | _, NInf => NInf
  end.

Definition fsub (x y : float) : float := fadd x (fopp y).

(** Sign of a value that is not [NaN]: [Lt], [Eq] or [Gt] against zero. *)
Definition fsign (x : float) : comparison :=
  match x with
  | Fin a => (a ?= 0)%Qc
  | PInf => Gt
  | NInf => Lt
  | NaN => Eq
  end.

Definition inf_of (s : comparison) : float :=
  match s with Lt => NInf | Gt => PInf | Eq => NaN end.

Definition sign_mul (s t : comparison) : comparison :=
  match s, t with
  | Eq, _ | _, Eq => Eq
  | Lt, Lt | Gt, Gt => Gt
  | _, _ => Lt
  end.

Definition fmul (x y : float) : float :=
  match x, y with
  | NaN, _ | _, NaN => NaN
  | Fin a, Fin b => Fin (a * b)
  | _, _ => inf_of (sign_mul (fsign x) (fsign y))
  end.

(** Division as numpy does it on float64: [0/0] and [inf/inf] are [NaN],
    [x/0] is an infinity of the sign of [x], a finite value over an infinity
    is [0]. *)
Definition fdiv (x y : float) : float :=
  match x, y with
  | NaN, _ | _, NaN => NaN
  | Fin a, Fin b =>
      if Qc_eqb b 0 then inf_of (a ?= 0)%Qc else Fin (a / b)
  | Fin _, _ => F0
  | _, Fin b =>
      if Qc_eqb b 0 then x else inf_of (sign_mul (fsign x) (b ?= 0)%Qc)
  | _, _ => NaN
  end.

Definition fabs (x : float) : float :=
  match x with
  | Fin a => Fin (if Qc_ltb a 0 then - a else a)
  | PInf | NInf => PInf
  | NaN => NaN
  end.

(** [Series.clip(lower=0)] and [Series.clip(upper=0)] on one value: a null
    stays null. *)
Definition clip_lower0 (x : float) : float :=
  match x with
  | Fin a => Fin (if Qc_ltb a 0 then 0 else a)
  | PInf => PInf
  | NInf => F0
  | NaN => NaN
  end.

Definition clip_upper0 (x : float) : float :=
  match x with
  | Fin a => Fin (if Qc_ltb 0 a then 0 else a)
  | PInf => F0
  | NInf => NInf
  | NaN => NaN
  end.

Definition of_Z (z : Z) : float := Fin (Q2Qc (inject_Z z)).
Definition of_nat (n : nat) : float := of_Z (Z.of_nat n).
Definition of_frac (a : Z) (b : positive) : float := Fin (Q2Qc (a # b)).

Declare Scope float_scope.
Delimit Scope float_scope with F.
Bind Scope float_scope with float.
Infix "+" := fadd : float_scope.
Infix "-" := fsub : float_scope.
Infix "*" := fmul : float_scope.
Infix "/" := fdiv : float_scope.

(** ** Series *)

Definition series : Type := list float.

Definition series_eqb (s t : series) : bool :=
  (length s =? length t)%nat
  && forallb (fun p => float_eqb (fst p) (snd p)) (combine s t).

(** [s.iloc[i]], read as null outside the index. *)
Definition iloc (s : series) (i : nat) : float := nth i s NaN.

(** ** pandas operations

    Each operation returns a series on the index of its argument, so each is
    given by its value at a position. *)

Definition tabulate (m : nat) (f : nat -> float) : series := map f (seq 0 m).

(** Elementwise arithmetic of two series, aligned on the union of their
    positions: a position one side lacks is null there. *)
Definition sbin (op : float -> float -> float) (s t : series) : series :=
  tabulate (Nat.max (length s) (length t)) (fun i => op (iloc s i) (iloc t i)).

Definition sadd := sbin fadd.
Definition ssub := sbin fsub.
Definition smul := sbin fmul.
Definition sdiv := sbin fdiv.

(** A Python scalar times a series. *)
Definition scale (c : float) (s : series) : series := map (fmul c) s.

Definition sabs (s : series) : series := map fabs s.

(** [Series.shift(k)]: the value at [i] moves to [i + k]; positions left
    without a value are null, values moved outside the index are dropped. *)
Definition shift (k : Z) (s : series) : series :=
  tabulate (length s)
    (fun i => let j := (Z.of_nat i - k)%Z in
              if (0 <=? j)%Z then iloc s (Z.to_nat j) else NaN).

(** [Series.diff(d)] is [s - s.shift(d)]. *)
Definition diff (d : nat) (s : series) : series :=
  ssub s (shift (Z.of_nat d) s).

(** The [n] values of [s] ending at position [i] (for [n <= i + 1]). *)
Definition window (n : nat) (s : series) (i : nat) : list float :=
  firstn n (skipn (S i - n) s).

Definition is_finite (x : float) : bool :=
  match x with Fin _ => true | _ => false end.

(** The observations of a window: pandas' rolling reads [inf] and [-inf] as
    missing, like a null. *)
Definition count_valid (w : list float) : nat :=
  length (filter is_finite w).

(** [s.rolling(n, min_periods=n).apply(f, raw=True)]: [f] of the trailing
    window where the window is complete and holds [n] observations, null
    elsewhere. *)
Definition rolling_apply (n : nat) (f : list float -> float) (s : series)
  : series :=
  tabulate (length s)
    (fun i => let w := window n s i in
              if (n <=? S i)%nat && (n <=? count_valid w)%nat then f w
              else NaN).

Definition fsum (w : list float) : float := fold_left fadd w F0.

(** [s.rolling(n).sum()]; [min_periods] defaults to [n]. *)
Definition rolling_sum (n : nat) (s : series) : series :=
  rolling_apply n fsum s.

Definition fmean (w : list float) : float := fdiv (fsum w) (of_nat (length w)).

(** [s.iloc[i] = v]; Python raises [IndexError] outside the index, the model
    leaves the series as it is there. *)
Fixpoint set_iloc (s : series) (i : nat) (v : float) : series :=
  match s, i with
  | [], _ => []
  | _ :: r, O => v :: r
  | x :: r, S j => x :: set_iloc r j v
  end.

(** [s.replace({0: nan})]. *)
Definition replace_zero_nan (s : series) : series :=
  map (fun x => if float_eqb x F0 then NaN else x) s.

(** [s.fillna(v)]. *)
Definition fillna (v : float) (s : series) : series :=
  map (fun x => if isnull x then v else x) s.

Inductive fill_method : Type := Ffill | Bfill.

Fixpoint ffill_from (last : float) (s : series) : series :=
  match s with
  | [] => []
  | x :: r => let y := if isnull x then last else x in y :: ffill_from y r
  end.

(** [s.fillna(method=m)]. *)
Definition fillna_method (m : fill_method) (s : series) : series :=
  match m with
  | Ffill => ffill_from NaN s
  | Bfill => rev (ffill_from NaN (rev s))
  end.

(** [s.cumsum()]: nulls are skipped and stay null. *)
Fixpoint cumsum_from (acc : float) (s : series) : series :=
  match s with
  | [] => []
  | x :: r =>
      if isnull x then NaN :: cumsum_from acc r
      else let a := fadd acc x in a :: cumsum_from a r
  end.

Definition cumsum (s : series) : series := cumsum_from F0 s.

(** A series on a part of the index: its values with their labels, in label
    order. *)
Definition labelled : Type := list (nat * float).

(** [s[s > 0]]: the positions that pass the test, with their labels; the
    others leave the index. *)
Definition keep_positive (s : series) : labelled :=
  filter (fun p => match fsign (snd p) with Gt => true | _ => false end)
         (combine (seq 0 (length s)) s).

(** [.abs()] of such a series. *)
Definition labelled_abs (l : labelled) : labelled :=
  map (fun p => (fst p, fabs (snd p))) l.

(** The value at label [k], null where the label is absent. *)
Fixpoint at_label (l : labelled) (k : nat) : float :=
  match l with
  | [] => NaN
  | (j, x) :: r => if (j =? k)%nat then x else at_label r k
  end.

(** The labels of [b] from [k] on. *)
Definition labels_past (k : nat) (b : labelled) : list nat :=
  filter (fun j => (k <=? j)%nat) (map fst b).

(** [a * b] for [a] on a full index and [b] on a part of one: the result is
    on the union of the labels, those of [a] followed by the labels of [b]
    past the end of [a], and null where a side has no value. *)
Definition smul_aligned (a : series) (b : labelled) : series :=
  map (fun k => fmul (iloc a k) (at_label b k))
      (seq 0 (length a) ++ labels_past (length a) b).

(** ** Arguments and the shared tail of every indicator *)

(** The options bag.  [kw_adjust] and [kw_presma] are read only by [ema],
    which [t3] hands its whole bag to. *)
Record kwargs : Type := {
  kw_fillna : option float;
  kw_fill_method : option fill_method;
  kw_lookahead : option bool;
  kw_adjust : option bool;
  kw_presma : option bool
}.

Definition no_kwargs : kwargs :=
  {| kw_fillna := None; kw_fill_method := None; kw_lookahead := None;
     kw_adjust := None; kw_presma := None |}.

(** [int(x) if x and x > 0 else dflt]. *)
Definition positive_or (x : option Z) (dflt : nat) : nat :=
  match x with
  | Some z => if (0 <? z)%Z then Z.to_nat z else dflt
  | None => dflt
  end.

(** Python truth of a float: everything but zero, [nan] included. *)
Definition truthy (x : float) : bool := negb (float_eqb x F0).

(** [float(x) if x else dflt]. *)
Definition scalar_or (x : option float) (dflt : float) : float :=
  match x with
  | Some v => if truthy v then v else dflt
  | None => dflt
  end.

(** [bool(talib) if isinstance(talib, bool) else True]. *)
Definition mode_tal_of (talib : option bool) : bool :=
  match talib with Some b => b | None => true end.

(** Modelled from the spec: [verify_series] of [pandas_ta.utils] is not among
    the sources.  Section 4.4: "reject (return null) if series is absent or
    shorter than required minimum length". *)
Definition verify_series (s : option series) (min_length : nat)
  : option series :=
  match s with
  | Some c => if (length c <? min_length)%nat then None else Some c
  | None => None
  end.

(** Modelled from the spec: [get_offset] of [pandas_ta.utils] is not among
    the sources.  Every docstring has "offset (int): How many periods to
    offset the result. Default: 0". *)
Definition get_offset (x : option Z) : Z :=
  match x with Some k => k | None => 0%Z end.

(** Modelled from the spec: [get_drift] of [pandas_ta.utils] is not among the
    sources.  The drift is "the lag (in positions) used when computing a
    simple difference", with the documented default 1 "applied when absent or
    invalid (<= 0)". *)
Definition get_drift (x : option Z) : nat := positive_or x 1.

(** The "Offset" and "Fill" blocks, the same in every indicator. *)
Definition apply_offset (offset : Z) (s : series) : series :=
  if (offset =? 0)%Z then s else shift offset s.

Definition apply_fill (kw : kwargs) (s : series) : series :=
  let s := match kw_fillna kw with Some v => fillna v s | None => s end in
  match kw_fill_method kw with Some m => fillna_method m s | None => s end.

Definition offset_and_fill (offset : Z) (kw : kwargs) (s : series) : series :=
  apply_fill kw (apply_offset offset s).

(** Modelled from the spec: [sma] of [pandas_ta.overlap] is not among the
    sources.  Section 4.3: "rolling mean over a trailing window of length
    [n], starting to emit values only once [n] observations are available
    (all earlier positions are null)". *)
Definition sma (close : series) (n : nat) : series :=
  rolling_apply n fmean close.

(** Modelled from the spec: [fibonacci] and [weights] of [pandas_ta.utils]
    are not among the sources.  Section 4.3: "weights are a fixed-length
    sequence summing to a known normalization; each output element is the dot
    product of the weights with the trailing window, divided by the weight
    sum".  [fibonacci n] is the first [n] Fibonacci numbers over their sum. *)
Fixpoint fib_seq (n : nat) (a b : Z) : list Z :=
  match n with
  | O => []
  | S k => a :: fib_seq k b (a + b)
  end.

Definition fibonacci (n : nat) : list float :=
  let f := map of_Z (fib_seq n 1 1) in
  map (fun x => fdiv x (fsum f)) f.

Definition weights (w : list float) (x : list float) : float :=
  fsum (map (fun p => fmul (fst p) (snd p)) (combine w x)).

(** [x ** k] for a literal exponent. *)
Fixpoint fpow (x : float) (k : nat) : float :=
  match k with
  | O => F1
  | S O => x
  | S j => fmul x (fpow x j)
  end.

(** ** vidya *)

Definition _cmo (source : series) (n d : nat) : series :=
  let mom := diff d source in
  let positive := map clip_lower0 mom in
  let negative := sabs (map clip_upper0 mom) in
  let pos_sum := rolling_sum n positive in
  let neg_sum := rolling_sum n negative in
  sdiv (ssub pos_sum neg_sum) (sadd pos_sum neg_sum).

(** [alpha = 2 / (length + 1)]. *)
Definition vidya_alpha (len : nat) : float := fdiv (of_Z 2) (of_nat (len + 1)).

(** The series the loop writes to.  [Series(0, index=close.index)] is an
    int64 series: it stays one while the values stored are whole numbers it
    can hold, and becomes a float64 series at the first value that is not. *)
Record buffer : Type := {
  is_int64 : bool;
  cells : series
}.

Definition two63 : Z := 2 ^ 63.

(** What an int64 series keeps of a float it can hold: a whole number from
    [-2^63] to [2^63], the test being made in binary64, where [2^63] passes
    and is kept as [-2^63].  Past that range the store does not fit (pandas
    then converts the series, or raises, depending on its version). *)
Definition int64_of (v : float) : option float :=
  match v with
  | Fin q =>
      if (Pos.eqb (Qden q) 1 && (- two63 <=? Qnum q)%Z
          && (Qnum q <=? two63)%Z)%bool
      then Some (if (Qnum q =? two63)%Z then of_Z (- two63) else v)
      else None
  | _ => None
  end.

(** [b.iloc[i] = v]. *)
Definition buffer_set (b : buffer) (i : nat) (v : float) : buffer :=
  if is_int64 b then
    match int64_of v with
    | Some w => {| is_int64 := true; cells := set_iloc (cells b) i w |}
    | None => {| is_int64 := false; cells := set_iloc (cells b) i v |}
    end
  else {| is_int64 := false; cells := set_iloc (cells b) i v |}.

(** The value a store of [v] leaves in a buffer of the given kind. *)
Definition kept (int64 : bool) (v : float) : float :=
  if int64 then match int64_of v with Some w => w | None => v end else v.

(** One pass of the body of the [for] loop, at position [i]. *)
Definition vidya_update (alpha : float) (abs_cmo close : series)
    (v : buffer) (i : nat) : buffer :=
  buffer_set v i
    (fadd (fmul (fmul alpha (iloc abs_cmo i)) (iloc close i))
          (fmul (iloc (cells v) (i - 1))
                (fsub F1 (fmul alpha (iloc abs_cmo i))))).

(** The loop: [Series(0, index=close.index)] updated for
    [i in range(length, m)]. *)
Definition vidya_loop (close : series) (len d : nat) : buffer :=
  let m := length close in
  let alpha := vidya_alpha len in
  let abs_cmo := sabs (_cmo close len d) in
  fold_left (vidya_update alpha abs_cmo close) (seq len (m - len))
            {| is_int64 := true; cells := repeat F0 m |}.

(** The values of [vidya] after the loop and before [replace]. *)
Definition vidya_scan (close : series) (len d : nat) : series :=
  cells (vidya_loop close len d).

Definition vidya (close : option series) (length drift offset : option Z)
    (kw : kwargs) : option series :=
  let len := positive_or length 14 in
  let close := verify_series close len in
  let drift := get_drift drift in
  let offset := get_offset offset in
  match close with
  | None => None
  | Some close =>
      let v := replace_zero_nan (vidya_scan close len drift) in
      Some (offset_and_fill offset kw v)
  end.

(** ** fwma *)

(** [asc if asc else True]. *)
Definition fwma_asc (asc : option bool) : bool :=
  match asc with Some true => true | _ => true end.

Definition fwma (close : option series) (length : option Z)
    (asc : option bool) (offset : option Z) (kw : kwargs) : option series :=
  let len := positive_or length 10 in
  let asc := fwma_asc asc in
  let close := verify_series close len in
  let offset := get_offset offset in
  match close with
  | None => None
  | Some close =>
      let fibs := fibonacci len in
      let r := rolling_apply len (weights fibs) close in
      Some (offset_and_fill offset kw r)
  end.

(** ** dpo *)

(** [centered] after [if not kwargs.get("lookahead", True): centered = False]. *)
Definition dpo_centered (centered : bool) (kw : kwargs) : bool :=
  match kw_lookahead kw with
  | Some false => false
  | _ => centered
  end.

(** [t = int(0.5 * length) + 1]; [int] truncates, and [length] is positive. *)
Definition dpo_t (len : nat) : nat := len / 2 + 1.

Definition dpo_calc (close : series) (len : nat) (centered : bool) : series :=
  let t := Z.of_nat (dpo_t len) in
  let ma := sma close len in
  let dpo := ssub close (shift t ma) in
  if centered then shift (- t) (ssub (shift t close) ma) else dpo.

Definition dpo (close : option series) (length : option Z) (centered : bool)
    (offset : option Z) (kw : kwargs) : option series :=
  let len := positive_or length 20 in
  let close := verify_series close len in
  let offset := get_offset offset in
  let centered := dpo_centered centered kw in
  match close with
  | None => None
  | Some close =>
      Some (offset_and_fill offset kw (dpo_calc close len centered))
  end.

(** ** Helpers to run the indicators on sample inputs *)

(** Modelled from the spec: [ema] of [pandas_ta.overlap] is not among the
    sources.  Section 4.3: "exponential smoothing with smoothing factor
    derived from a window length, ... seeded by the first observation"; the
    factor is the glossary's [2/(n+1)]. *)
Fixpoint ema_run (alpha prev : float) (s : series) : series :=
  match s with
  | [] => []
  | x :: r =>
      let y := fadd (fmul alpha x) (fmul (fsub F1 alpha) prev) in
      y :: ema_run alpha y r
  end.

Definition ema_seeded (close : series) (n : nat) : series :=
  match close with
  | [] => []
  | x :: r => x :: ema_run (fdiv (of_Z 2) (of_nat (n + 1))) x r
  end.

Definition ema_seeded_at (kw : kwargs) (close : series) (n i : nat) : float :=
  iloc (ema_seeded close n) i.

(** A stand-in for a helper whose values the spec leaves open: its input. *)
Definition echo_at (s : series) (n i : nat) : float := iloc s i.



(** ** Indicators that call helpers outside the sources *)

Section Indicators.

(** [Imports["talib"]]: whether TA-Lib is installed. *)
Variable Imports_talib : bool.

(** TA-Lib's [T3] and [CMO], an external library; the value at each position
    of the index of [close]. *)
Variable talib_T3 : series -> nat -> float -> nat -> float.
Variable talib_CMO : series -> nat -> nat -> float.

(** Modelled from the spec: [ema], [rma], [atr], [tsi], [roc] and
    [signed_series] are not among the sources.  By Section 3 an indicator
    result is "of the same length and positional alignment as the input";
    each helper is therefore given by its value at a position of its input's
    index, and those values are left open. *)
Variable ema_at : kwargs -> series -> nat -> nat -> float.
Variable rma_at : series -> nat -> nat -> float.
Variable atr_at : series -> series -> series -> nat -> nat -> float.
Variable tsi_at : series -> nat -> nat -> nat -> float -> nat -> float * float.
Variable roc_at : series -> nat -> nat -> float.
Variable signed_series_at : series -> nat -> nat -> float.

Definition ema (kw : kwargs) (close : series) (n : nat) : series :=
  tabulate (length close) (ema_at kw close n).

Definition rma (close : series) (n : nat) : series :=
  tabulate (length close) (rma_at close n).

Definition atr (high low close : series) (n : nat) : series :=
  tabulate (length close) (atr_at high low close n).

(** The two columns of the frame [tsi] returns. *)
Definition tsi (close : series) (fast slow signal : nat) (scalar : float)
  : series * series :=
  let at_ := tsi_at close fast slow signal scalar in
  (tabulate (length close) (fun i => fst (at_ i)),
   tabulate (length close) (fun i => snd (at_ i))).

Definition roc (close : series) (n : nat) : series :=
  tabulate (length close) (roc_at close n).

Definition signed_series (s : series) (initial : nat) : series :=
  tabulate (length s) (signed_series_at s initial).


(** *** t3 *)

(** [float(a) if a and a > 0 and a < 1 else 0.7]. *)
Definition t3_a (a : option float) : float :=
  match a with
  | Some (Fin q) => if Qc_ltb 0 q && Qc_ltb q 1 then Fin q else of_frac 7 10
  | _ => of_frac 7 10
  end.

Definition t3_c1 (a : float) : float := fmul (fopp a) (fpow a 2).
Definition t3_c2 (a : float) : float :=
  fadd (fmul (of_Z 3) (fpow a 2)) (fmul (of_Z 3) (fpow a 3)).
Definition t3_c3 (a : float) : float :=
  fsub (fsub (fmul (of_Z (-6)) (fpow a 2)) (fmul (of_Z 3) a))
       (fmul (of_Z 3) (fpow a 3)).
Definition t3_c4 (a : float) : float :=
  fadd (fadd (fadd (fpow a 3) (fmul (of_Z 3) (fpow a 2))) (fmul (of_Z 3) a))
       F1.

(** The [else] branch of "Calculate Result". *)
Definition t3_bundled (close : series) (len : nat) (a : float) (kw : kwargs)
  : series :=
  let c1 := t3_c1 a in
  let c2 := t3_c2 a in
  let c3 := t3_c3 a in
  let c4 := t3_c4 a in
  let e1 := ema kw close len in
  let e2 := ema kw e1 len in
  let e3 := ema kw e2 len in
  let e4 := ema kw e3 len in
  let e5 := ema kw e4 len in
  let e6 := ema kw e5 len in
  sadd (sadd (sadd (scale c1 e6) (scale c2 e5)) (scale c3 e4)) (scale c4 e3).

Definition t3 (close : option series) (length : option Z) (a : option float)
    (talib : option bool) (offset : option Z) (kw : kwargs) : option series :=
  let len := positive_or length 10 in
  let a := t3_a a in
  let close := verify_series close len in
  let offset := get_offset offset in
  let mode_tal := mode_tal_of talib in
  match close with
  | None => None
  | Some close =>
      let r := if Imports_talib && mode_tal
               then tabulate (List.length close) (talib_T3 close len a)
               else t3_bundled close len a kw in
      Some (offset_and_fill offset kw r)
  end.

(** *** cmo *)

Definition cmo_bundled (close : series) (len : nat) (scalar : float)
    (drift : nat) (mode_tal : bool) : series :=
  let mom := diff drift close in
  let positive := map clip_lower0 mom in
  let negative := sabs (map clip_upper0 mom) in
  let pos_ := if mode_tal then rma positive len
              else rolling_sum len positive in
  let neg_ := if mode_tal then rma negative len
              else rolling_sum len negative in
  sdiv (scale scalar (ssub pos_ neg_)) (sadd pos_ neg_).

Definition cmo (close : option series) (length : option Z)
    (scalar : option float) (talib : option bool) (drift offset : option Z)
    (kw : kwargs) : option series :=
  let len := positive_or length 14 in
  let scalar := scalar_or scalar (of_Z 100) in
  let close := verify_series close len in
  let drift := get_drift drift in
  let offset := get_offset offset in
  let mode_tal := mode_tal_of talib in
  match close with
  | None => None
  | Some close =>
      let r := if Imports_talib && mode_tal
               then tabulate (List.length close) (talib_CMO close len)
               else cmo_bundled close len scalar drift mode_tal in
      Some (offset_and_fill offset kw r)
  end.

(** *** pgo *)

Definition pgo_calc (high low close : series) (len : nat) : series :=
  let pgo := ssub close (sma close len) in
  sdiv pgo (ema no_kwargs (atr high low close len) len).

Definition pgo (high low close : option series) (length offset : option Z)
    (kw : kwargs) : option series :=
  let len := positive_or length 14 in
  let high := verify_series high len in
  let low := verify_series low len in
  let close := verify_series close len in
  let offset := get_offset offset in
  match high, low, close with
  | Some high, Some low, Some close =>
      Some (offset_and_fill offset kw (pgo_calc high low close len))
  | _, _, _ => None
  end.

(** *** smi *)

(** The three columns [smi], [signalma] and [osc] of the returned frame. *)
Definition smi (close : option series) (fast slow signal : option Z)
    (scalar : option float) (offset : option Z) (kw : kwargs)
  : option (series * series * series) :=
  let fast := positive_or fast 5 in
  let slow := positive_or slow 20 in
  let signal := positive_or signal 5 in
  let '(fast, slow) := if (slow <? fast)%nat then (slow, fast)
                       else (fast, slow) in
  let scalar := scalar_or scalar F1 in
  let close := verify_series close (Nat.max (Nat.max fast slow) signal) in
  let offset := get_offset offset in
  match close with
  | None => None
  | Some close =>
      let tsi_df := tsi close fast slow signal scalar in
      let smi := fst tsi_df in
      let signalma := snd tsi_df in
      let osc := ssub smi signalma in
      Some (offset_and_fill offset kw smi,
            offset_and_fill offset kw signalma,
            offset_and_fill offset kw osc)
  end.

(** *** pvi *)

Definition pvi_calc (close volume : series) (len initial : nat) : series :=
  let signed_volume := signed_series volume 1 in
  let _roc := roc close len in
  let pvi := smul_aligned _roc (labelled_abs (keep_positive signed_volume)) in
  let pvi := fillna F0 pvi in
  let pvi := set_iloc pvi 0 (of_nat initial) in
  cumsum pvi.

Definition pvi (close volume : option series) (length initial offset : option Z)
    (kw : kwargs) : option series :=
  let len := positive_or length 1 in
  let initial := positive_or initial 1000 in
  let close := verify_series close len in
  let volume := verify_series volume len in
  let offset := get_offset offset in
  match close, volume with
  | Some close, Some volume =>
      Some (offset_and_fill offset kw (pvi_calc close volume len initial))
  | _, _ => None
  end.

(** ** The specification's formulas *)

(** The [d]-difference of [close] at [j]: [close[j] - close[j-d]], null where
    [j - d] lies before the series. *)
Definition diff_at (close : series) (d j : nat) : float :=
  if (d <=? j)%nat then fsub (iloc close j) (iloc close (j - d)) else NaN.

(** The sum of a window all of whose values are observations, null
    otherwise. *)
Definition sum_of_observations (w : list float) : float :=
  if forallb is_finite w then fsum w else NaN.

(** Sum of [f] over the [n] positions ending at [i]. *)
Definition window_sum (f : nat -> float) (n i : nat) : float :=
  sum_of_observations (map f (seq (S i - n) n)).

(** Summed positive differences and summed (magnitudes of) negative
    differences over the window of length [n] ending at [i]. *)
Definition pos_sum_at (close : series) (n d i : nat) : float :=
  window_sum (fun j => clip_lower0 (diff_at close d j)) n i.

Definition neg_sum_at (close : series) (n d i : nat) : float :=
  window_sum (fun j => fabs (clip_upper0 (diff_at close d j))) n i.

(** [cmo_abs[i]] of Section 4.1. *)
Definition cmo_abs_at (close : series) (n d i : nat) : float :=
  let p := pos_sum_at close n d i in
  let q := neg_sum_at close n d i in
  fabs (fdiv (fsub p q) (fadd p q)).

(** The recurrence of Section 4.1 at one position, from the previous output
    [prev]. *)
Definition vidya_rec (alpha c x prev : float) : float :=
  fadd (fmul (fmul alpha c) x) (fmul prev (fsub F1 (fmul alpha c))).

(** [2 / (n + 1)] as a rational. *)
Definition alpha_of (n : nat) : Qc := Q2Qc (2 # Pos.of_succ_nat n).

(** ** Sample inputs *)

Definition prices (l : list Z) : series := map of_Z l.

(** ** The T3 formula of Section 4.2 *)

Definition qz (z : Z) : Qc := Q2Qc (inject_Z z).

Definition T3_c1 (a : Qc) : Qc := - a ^ 3.
Definition T3_c2 (a : Qc) : Qc := qz 3 * a ^ 2 + qz 3 * a ^ 3.
Definition T3_c3 (a : Qc) : Qc := - (qz 6 * a ^ 2) - qz 3 * a - qz 3 * a ^ 3.
Definition T3_c4 (a : Qc) : Qc := a ^ 3 + qz 3 * a ^ 2 + qz 3 * a + 1.

(** [c1*e6 + c2*e5 + c3*e4 + c4*e3], position by position. *)
Definition T3_formula (a : Qc) (e3 e4 e5 e6 : series) : series :=
  tabulate (length e3)
    (fun i =>
       fadd (fadd (fadd (fmul (Fin (T3_c1 a)) (iloc e6 i))
                        (fmul (Fin (T3_c2 a)) (iloc e5 i)))
                  (fmul (Fin (T3_c3 a)) (iloc e4 i)))
            (fmul (Fin (T3_c4 a)) (iloc e3 i))).

(** ** Validation, as Section 7 words it *)

(** A required series is "missing (null) or shorter than the required
    minimum length". *)
Definition invalid (s : option series) (min_length : nat) : Prop :=
  match s with
  | None => True
  | Some c => (length c < min_length)%nat
  end.

(** ** Sums of magnitudes *)

(** Values a sum of clipped differences can take: a non-negative number,
    plus infinity, or null. *)
Definition nonneg (x : float) : Prop :=
  match x with
  | Fin a => 0 <= a
  | PInf | NaN => True
  | NInf => False
  end.

(** ** Offsets *)

(** What survives an offset by [k] undone by an offset by [-k]: the values
    whose shifted position [i + k] stayed inside the index. *)
Definition offset_survivors (k : Z) (s : series) : series :=
  tabulate (length s)
    (fun i => if ((0 <=? Z.of_nat i + k)
                  && (Z.of_nat i + k <? Z.of_nat (length s)))%Z
              then iloc s i else NaN).


(** ** Ranges of values *)

(** Exactly zero, or null. *)
Definition zero_or_null (x : float) : Prop := x = NaN \/ x = F0.


(** ** Increments of pvi *)

(** What one bar adds to the index: the rate of change times the signed
    volume where that is positive and the product is not null, else 0. *)
Definition pvi_increment (roc_i sv_i : float) : float :=
  let x := fmul roc_i
             (fabs (match fsign sv_i with Gt => sv_i | _ => NaN end)) in
  if isnull x then F0 else x.
(** * Properties *)

(** ** Equality tests *)

Lemma Qc_eqb_eq (a b : Qc) : Qc_eqb a b = true <-> a = b.
Proof.
  unfold Qc_eqb. rewrite Qeq_bool_iff. split.
  - apply Qc_is_canon.
  - intros ->. reflexivity.
Qed.

Lemma float_eqb_eq (x y : float) : float_eqb x y = true <-> x = y.
Proof.
  destruct x, y; simpl; try (split; (reflexivity || discriminate)).
  rewrite Qc_eqb_eq. split; [intros ->; reflexivity | congruence].
Qed.

Lemma series_eqb_eq (s t : series) : series_eqb s t = true <-> s = t.
Proof.
  unfold series_eqb. revert t.
  induction s as [|x s IH]; intros [|y t]; simpl;
    try (split; (reflexivity || discriminate)).
  specialize (IH t).
  rewrite andb_true_iff in *. rewrite andb_true_iff. rewrite float_eqb_eq.
  split.
  - intros [Hl [-> Hf]]. f_equal. apply IH. split; assumption.
  - intros [= -> ->]. destruct IH as [_ IH]. destruct (IH eq_refl) as [? ?].
    repeat split; assumption.
Qed.

(** *** Basic facts *)

Lemma length_tabulate m f : length (tabulate m f) = m.
Proof. unfold tabulate. now rewrite length_map, length_seq. Qed.

Lemma iloc_tabulate m f i :
  iloc (tabulate m f) i = if (i <? m)%nat then f i else NaN.
Proof.
  unfold iloc, tabulate.
  destruct (Nat.ltb_spec i m) as [H|H].
  - rewrite nth_indep with (d' := f 0%nat) by now rewrite length_map, length_seq.
    rewrite map_nth, seq_nth by assumption. reflexivity.
  - apply nth_overflow. now rewrite length_map, length_seq.
Qed.

Lemma iloc_tabulate_lt m f i : (i < m)%nat -> iloc (tabulate m f) i = f i.
Proof.
  intros H. rewrite iloc_tabulate.
  destruct (Nat.ltb_spec i m); [reflexivity | lia].
Qed.

Lemma iloc_overflow s i : (length s <= i)%nat -> iloc s i = NaN.
Proof. intros H. unfold iloc. now apply nth_overflow. Qed.

Lemma series_ext (s t : series) :
  length s = length t ->
  (forall i, (i < length s)%nat -> iloc s i = iloc t i) -> s = t.
Proof.
  intros Hl H. apply nth_ext with (d := NaN) (d' := NaN); assumption.
Qed.

Lemma length_sbin op s t :
  length (sbin op s t) = Nat.max (length s) (length t).
Proof. apply length_tabulate. Qed.

Lemma length_shift k s : length (shift k s) = length s.
Proof. apply length_tabulate. Qed.

Lemma length_diff d s : length (diff d s) = length s.
Proof.
  unfold diff, ssub. rewrite length_sbin, length_shift. lia.
Qed.

Lemma length_rolling_apply n f s : length (rolling_apply n f s) = length s.
Proof. apply length_tabulate. Qed.

Lemma length_set_iloc s i v : length (set_iloc s i v) = length s.
Proof.
  revert i. induction s as [|x s IH]; intros [|i]; simpl; auto.
Qed.

Lemma iloc_set_iloc_eq s i v :
  (i < length s)%nat -> iloc (set_iloc s i v) i = v.
Proof.
  revert i. induction s as [|x s IH]; intros [|i] H; simpl in *;
    try lia; auto.
  apply IH. lia.
Qed.

Lemma iloc_set_iloc_neq s i j v :
  i <> j -> iloc (set_iloc s i v) j = iloc s j.
Proof.
  revert i j. induction s as [|x s IH]; intros [|i] [|j] H; simpl;
    try reflexivity; try congruence.
  apply IH. congruence.
Qed.

Lemma iloc_map f s i :
  f NaN = NaN -> iloc (map f s) i = f (iloc s i).
Proof.
  intros Hf. unfold iloc. rewrite <- Hf at 1. apply map_nth.
Qed.

Lemma iloc_map_lt f s i :
  (i < length s)%nat -> iloc (map f s) i = f (iloc s i).
Proof.
  intros H. unfold iloc.
  rewrite nth_indep with (d' := f NaN) by now rewrite length_map.
  apply map_nth.
Qed.

Lemma iloc_sbin op s t i :
  (i < Nat.max (length s) (length t))%nat ->
  iloc (sbin op s t) i = op (iloc s i) (iloc t i).
Proof. intros H. unfold sbin. now rewrite iloc_tabulate_lt. Qed.

Lemma iloc_shift k s i :
  (i < length s)%nat ->
  iloc (shift k s) i =
    if (0 <=? Z.of_nat i - k)%Z then iloc s (Z.to_nat (Z.of_nat i - k))
    else NaN.
Proof. intros H. unfold shift. now rewrite iloc_tabulate_lt. Qed.


(** ** Arithmetic with nulls *)

Lemma fadd_nan_r x : fadd x NaN = NaN.
Proof. now destruct x. Qed.

Lemma fadd_nan_l x : fadd NaN x = NaN.
Proof. reflexivity. Qed.

Lemma fsub_nan_r x : fsub x NaN = NaN.
Proof. now destruct x. Qed.

Lemma fmul_nan_r x : fmul x NaN = NaN.
Proof. now destruct x. Qed.

Lemma fmul_nan_l x : fmul NaN x = NaN.
Proof. reflexivity. Qed.


Lemma fold_fadd_nan w : fold_left fadd w NaN = NaN.
Proof. induction w as [|x w IH]; simpl; auto. Qed.

Lemma fold_fadd_has_nan w acc :
  existsb isnull w = true -> fold_left fadd w acc = NaN.
Proof.
  revert acc. induction w as [|x w IH]; simpl; intros acc H.
  - discriminate.
  - destruct x; simpl in H; auto.
    rewrite fadd_nan_r. apply fold_fadd_nan.
Qed.

Lemma count_valid_le w : (count_valid w <= length w)%nat.
Proof. unfold count_valid. apply filter_length_le. Qed.

(** With [min_periods] the window length, a window passes the test of a
    rolling operation exactly when all its values are observations. *)
Lemma rolling_guard n w :
  length w = n -> (n <=? count_valid w)%nat = forallb is_finite w.
Proof.
  intros <-. unfold count_valid.
  induction w as [|x w IH]; [reflexivity|].
  cbn [forallb filter length]. destruct (is_finite x).
  - cbn [length andb]. exact IH.
  - pose proof (filter_length_le is_finite w). cbn [andb].
    destruct (Nat.leb_spec (S (length w)) (length (filter is_finite w)));
      [lia | reflexivity].
Qed.

(** ** Windows *)

Lemma slice_tabulate (s : series) a n :
  (a + n <= length s)%nat ->
  firstn n (skipn a s) = map (iloc s) (seq a n).
Proof.
  intros H. apply nth_ext with (d := NaN) (d' := iloc s 0).
  - rewrite length_firstn, length_skipn, length_map, length_seq. lia.
  - intros k Hk.
    rewrite length_firstn, length_skipn in Hk.
    rewrite nth_firstn, nth_skipn.
    destruct (Nat.ltb_spec k n); [|lia].
    rewrite map_nth, seq_nth by assumption. reflexivity.
Qed.

Lemma window_tabulate n (s : series) i :
  (n <= S i)%nat -> (i < length s)%nat ->
  window n s i = map (iloc s) (seq (S i - n) n).
Proof. intros H1 H2. unfold window. apply slice_tabulate. lia. Qed.

Lemma length_rolling_sum n (s : series) :
  length (rolling_sum n s) = length s.
Proof. apply length_rolling_apply. Qed.

Lemma iloc_rolling_sum n (s : series) i :
  (n <= S i)%nat -> (i < length s)%nat ->
  iloc (rolling_sum n s) i
  = sum_of_observations (map (iloc s) (seq (S i - n) n)).
Proof.
  intros H1 H2. unfold rolling_sum, rolling_apply.
  rewrite iloc_tabulate_lt by assumption. cbv zeta.
  destruct (Nat.leb_spec n (S i)); [|lia]. simpl andb.
  rewrite window_tabulate by assumption.
  rewrite rolling_guard by now rewrite length_map, length_seq.
  reflexivity.
Qed.

(** ** The oscillator of [vidya] *)

Lemma iloc_diff (s : series) d j :
  (j < length s)%nat -> iloc (diff d s) j = diff_at s d j.
Proof.
  intros H. unfold diff, ssub, diff_at.
  rewrite iloc_sbin by (rewrite length_shift; lia).
  rewrite iloc_shift by assumption.
  destruct (Nat.leb_spec d j) as [Hd|Hd].
  - destruct (Z.leb_spec 0 (Z.of_nat j - Z.of_nat d)); [|lia].
    do 2 f_equal. lia.
  - destruct (Z.leb_spec 0 (Z.of_nat j - Z.of_nat d)); [lia|].
    apply fsub_nan_r.
Qed.

Lemma map_seq_ext (f g : nat -> float) a n :
  (forall j, (a <= j < a + n)%nat -> f j = g j) ->
  map f (seq a n) = map g (seq a n).
Proof.
  intros H. apply map_ext_in. intros j Hj. apply in_seq in Hj. now apply H.
Qed.

Lemma iloc_pos_sum (close : series) n d i :
  (n <= S i)%nat -> (i < length close)%nat ->
  iloc (rolling_sum n (map clip_lower0 (diff d close))) i
  = pos_sum_at close n d i.
Proof.
  intros H1 H2.
  rewrite iloc_rolling_sum by (rewrite ?length_map, ?length_diff; assumption).
  unfold pos_sum_at, window_sum. f_equal.
  apply map_seq_ext. intros j Hj.
  rewrite iloc_map by reflexivity. rewrite iloc_diff by lia. reflexivity.
Qed.

Lemma iloc_neg_sum (close : series) n d i :
  (n <= S i)%nat -> (i < length close)%nat ->
  iloc (rolling_sum n (sabs (map clip_upper0 (diff d close)))) i
  = neg_sum_at close n d i.
Proof.
  intros H1 H2. unfold sabs.
  rewrite iloc_rolling_sum
    by (rewrite ?length_map, ?length_diff; assumption).
  unfold neg_sum_at, window_sum. f_equal.
  apply map_seq_ext. intros j Hj.
  rewrite !iloc_map by reflexivity. rewrite iloc_diff by lia. reflexivity.
Qed.

Lemma length__cmo (source : series) n d :
  length (_cmo source n d) = length source.
Proof.
  unfold _cmo, sdiv, ssub, sadd, sabs.
  rewrite !length_sbin, !length_rolling_sum, !length_map, length_diff.
  lia.
Qed.

Lemma iloc__cmo (close : series) n d i :
  (n <= S i)%nat -> (i < length close)%nat ->
  iloc (_cmo close n d) i
  = fdiv (fsub (pos_sum_at close n d i) (neg_sum_at close n d i))
         (fadd (pos_sum_at close n d i) (neg_sum_at close n d i)).
Proof.
  intros H1 H2. unfold _cmo.
  assert (Lp : length (rolling_sum n (map clip_lower0 (diff d close)))
               = length close)
    by now rewrite length_rolling_sum, length_map, length_diff.
  assert (Ln : length (rolling_sum n (sabs (map clip_upper0 (diff d close))))
               = length close)
    by (unfold sabs; now rewrite length_rolling_sum, !length_map, length_diff).
  unfold sdiv, ssub, sadd.
  rewrite iloc_sbin by (rewrite !length_sbin, Lp, Ln; lia).
  rewrite !iloc_sbin by (rewrite Lp, Ln; lia).
  rewrite iloc_pos_sum, iloc_neg_sum by assumption. reflexivity.
Qed.

Lemma iloc_abs_cmo (close : series) n d i :
  (n <= S i)%nat -> (i < length close)%nat ->
  iloc (sabs (_cmo close n d)) i = cmo_abs_at close n d i.
Proof.
  intros H1 H2. unfold sabs. rewrite iloc_map by reflexivity.
  rewrite iloc__cmo by assumption. reflexivity.
Qed.

(** ** The smoothing factor *)

Lemma of_nat_nonzero n : Qc_eqb (Q2Qc (inject_Z (Z.of_nat (S n)))) 0 = false.
Proof.
  destruct (Qc_eqb _ 0) eqn:E; [|reflexivity].
  apply Qc_eqb_eq in E. change 0 with (Q2Qc 0%Q) in E.
  apply Q2Qc_eq_iff in E. unfold Qeq, inject_Z in E. simpl in E. lia.
Qed.

Lemma vidya_alpha_eq n : vidya_alpha n = Fin (alpha_of n).
Proof.
  unfold vidya_alpha, of_nat, of_Z, fdiv.
  replace (n + 1)%nat with (S n) by lia.
  rewrite of_nat_nonzero. f_equal.
  apply Qc_is_canon. unfold alpha_of, Qcdiv, Qcmult, Qcinv, Q2Qc, this.
  rewrite !Qred_correct.
  unfold Qeq, Qmult, Qinv, inject_Z. simpl.
  reflexivity.
Qed.

(** ** The scan *)

Lemma cells_buffer_set b i v :
  cells (buffer_set b i v) = set_iloc (cells b) i (kept (is_int64 b) v).
Proof.
  unfold buffer_set, kept. destruct (is_int64 b); [|reflexivity].
  now destruct (int64_of v).
Qed.

Lemma is_int64_buffer_set b i v :
  is_int64 (buffer_set b i v)
  = is_int64 b && match int64_of v with Some _ => true | None => false end.
Proof.
  unfold buffer_set. destruct (is_int64 b); [|reflexivity].
  now destruct (int64_of v).
Qed.

Lemma kept_nan f : kept f NaN = NaN.
Proof. now destruct f. Qed.

Section Scan.

Variables (alpha : float) (abs_cmo close : series).

Lemma length_scan k a buf :
  length (cells (fold_left (vidya_update alpha abs_cmo close) (seq a k) buf))
  = length (cells buf).
Proof.
  revert a buf. induction k as [|k IH]; intros a buf; simpl; auto.
  rewrite IH. unfold vidya_update. rewrite cells_buffer_set.
  apply length_set_iloc.
Qed.

(** Positions outside [range(a, a + k)] keep what the buffer held. *)
Lemma scan_untouched k a buf i :
  (i < a \/ a + k <= i)%nat ->
  iloc (cells (fold_left (vidya_update alpha abs_cmo close) (seq a k) buf)) i
  = iloc (cells buf) i.
Proof.
  revert a buf. induction k as [|k IH]; intros a buf H; simpl; auto.
  rewrite IH by lia. unfold vidya_update. rewrite cells_buffer_set.
  apply iloc_set_iloc_neq. lia.
Qed.

(** Positions inside hold what the buffer kept of the recurrence on their
    left neighbour's final value. *)
Lemma scan_updated k a buf i :
  (1 <= a)%nat -> (a <= i < a + k)%nat -> (i < length (cells buf))%nat ->
  let out :=
    cells (fold_left (vidya_update alpha abs_cmo close) (seq a k) buf) in
  exists f,
    iloc out i
    = kept f (vidya_rec alpha (iloc abs_cmo i) (iloc close i)
                        (iloc out (i - 1))).
Proof.
  intros Ha. revert buf. induction k as [|k IH]; intros buf Hi Hl out.
  - lia.
  - subst out. rewrite seq_S, fold_left_app. simpl.
    set (mid := fold_left (vidya_update alpha abs_cmo close) (seq a k) buf).
    assert (Lm : length (cells mid) = length (cells buf))
      by apply length_scan.
    unfold vidya_update at 1 2. rewrite !cells_buffer_set.
    destruct (Nat.eq_dec i (a + k)) as [->|Hne].
    + exists (is_int64 mid).
      rewrite iloc_set_iloc_eq by lia.
      rewrite iloc_set_iloc_neq by lia. reflexivity.
    + rewrite !iloc_set_iloc_neq by lia.
      apply IH; lia.
Qed.

End Scan.

Lemma iloc_repeat x m i : (i < m)%nat -> iloc (repeat x m) i = x.
Proof. intros H. unfold iloc. now apply nth_repeat_lt. Qed.

Lemma length_vidya_scan close n d :
  length (vidya_scan close n d) = length close.
Proof.
  unfold vidya_scan, vidya_loop. rewrite length_scan. apply repeat_length.
Qed.

(** Before [length] the scan leaves the initial zero. *)
Lemma vidya_scan_before close n d i :
  (i < n)%nat -> (i < length close)%nat -> iloc (vidya_scan close n d) i = F0.
Proof.
  intros H1 H2. unfold vidya_scan, vidya_loop.
  rewrite scan_untouched by lia. now apply iloc_repeat.
Qed.

(** From [length] on, a position holds what the buffer kept of the
    recurrence. *)
Lemma vidya_scan_step close n d i :
  (1 <= n)%nat -> (n <= i < length close)%nat ->
  exists f,
    iloc (vidya_scan close n d) i
    = kept f (vidya_rec (vidya_alpha n) (cmo_abs_at close n d i)
                        (iloc close i)
                        (iloc (vidya_scan close n d) (i - 1))).
Proof.
  intros Hn Hi. unfold vidya_scan, vidya_loop.
  destruct (scan_updated (vidya_alpha n) (sabs (_cmo close n d)) close
              (length close - n) n
              {| is_int64 := true; cells := repeat F0 (length close) |} i)
    as [f Hf]; try (simpl; rewrite ?repeat_length; lia).
  exists f. rewrite Hf. now rewrite iloc_abs_cmo by lia.
Qed.

Lemma positive_or_pos x dflt : (1 <= dflt)%nat -> (1 <= positive_or x dflt)%nat.
Proof.
  intros H. unfold positive_or. destruct x as [z|]; [|assumption].
  destruct (Z.ltb_spec 0 z); lia.
Qed.

Lemma verify_series_ok (c : series) n :
  (n <= length c)%nat -> verify_series (Some c) n = Some c.
Proof.
  intros H. unfold verify_series.
  destruct (Nat.ltb_spec (length c) n); [lia | reflexivity].
Qed.

Lemma offset_and_fill_plain s : offset_and_fill 0 no_kwargs s = s.
Proof. reflexivity. Qed.

(** ** Claims about [vidya] *)

Lemma vidya_returns (close : series) (length drift : option Z) :
  (positive_or length 14 <= List.length close)%nat ->
  vidya (Some close) length drift None no_kwargs
  = Some (replace_zero_nan
            (vidya_scan close (positive_or length 14) (get_drift drift))).
Proof.
  intros H. unfold vidya. rewrite verify_series_ok by assumption.
  reflexivity.
Qed.

(** C1.  The series [vidya] returns does not satisfy the recurrence where an
    update computes exactly 0.  On [close = [1, 2, 1, 5]] with [length = 2]:
    at [i = 2] the recurrence from the seed [out[1] = 0] gives 0 and the
    output holds null; at [i = 3] the output holds 2, computed from that 0,
    where the recurrence on the returned [out[2]] (null) gives null. *)
Theorem vidya_output_breaks_recurrence :
  let close := prices [1; 2; 1; 5]%Z in
  let alpha := Fin (alpha_of 2) in
  let out := [NaN; NaN; NaN; of_Z 2] in
  vidya (Some close) (Some 2%Z) None None no_kwargs = Some out
  /\ fadd (fmul (fmul alpha (cmo_abs_at close 2 1 2)) (iloc close 2))
          (fmul F0 (fsub F1 (fmul alpha (cmo_abs_at close 2 1 2))))
     = F0
  /\ iloc out 2 = NaN
  /\ fadd (fmul (fmul alpha (cmo_abs_at close 2 1 3)) (iloc close 3))
          (fmul (iloc out 2) (fsub F1 (fmul alpha (cmo_abs_at close 2 1 3))))
     = NaN
  /\ iloc out 3 = of_Z 2.
Proof.
  intros close alpha out. split; [|split; [|split; [|split]]].
  - rewrite vidya_returns by (simpl; lia). apply f_equal.
    apply series_eqb_eq. vm_compute. reflexivity.
  - apply float_eqb_eq. vm_compute. reflexivity.
  - reflexivity.
  - apply float_eqb_eq. vm_compute. reflexivity.
  - reflexivity.
Qed.

(** Closing an equation between computed values. *)
Ltac eval_float := apply float_eqb_eq; vm_compute; reflexivity.
Ltac eval_series := apply series_eqb_eq; vm_compute; reflexivity.

(** C4.  On [close = [1, 2, 1, 5]] with [length = 2] the update at position
    [2 >= n] is a real one and computes exactly [0], and the returned series
    holds null there: [replace({0: nan})] cannot tell that zero from the
    zeros the series was initialised with. *)
Theorem vidya_computed_zero_is_null :
  let close := prices [1; 2; 1; 5]%Z in
  let out := vidya_scan close 2 1 in
  cmo_abs_at close 2 1 2 = F0
  /\ iloc out 2
     = vidya_rec (Fin (alpha_of 2)) (cmo_abs_at close 2 1 2) (iloc close 2)
                 (iloc out 1)
  /\ iloc out 2 = F0
  /\ vidya (Some close) (Some 2%Z) None None no_kwargs
     = Some [NaN; NaN; NaN; of_Z 2].
Proof.
  intros close out. split; [|split; [|split]].
  - eval_float.
  - eval_float.
  - eval_float.
  - rewrite vidya_returns by (simpl; lia). apply f_equal. eval_series.
Qed.

(** ** Sums of magnitudes *)

Lemma Qc_ltb_false a b : Qc_ltb a b = false -> b <= a.
Proof.
  unfold Qc_ltb. intros H. destruct (Qclt_le_dec a b) as [L|L]; [|exact L].
  assert (E : (a ?= b) = Lt) by (apply Qclt_alt; exact L).
  rewrite E in H. discriminate.
Qed.

Lemma Qc_ltb_true a b : Qc_ltb a b = true -> a < b.
Proof.
  unfold Qc_ltb. intros H. apply Qclt_alt.
  destruct (a ?= b); (reflexivity || discriminate).
Qed.

Lemma nonneg_clip_lower0 x : nonneg (clip_lower0 x).
Proof.
  destruct x as [a| | |]; simpl; auto; try apply Qcle_refl.
  destruct (Qc_ltb a 0) eqn:E; [apply Qcle_refl | now apply Qc_ltb_false].
Qed.

Lemma nonneg_fabs x : nonneg (fabs x).
Proof.
  destruct x as [a| | |]; simpl; auto.
  destruct (Qc_ltb a 0) eqn:E.
  - apply Qc_ltb_true in E. apply Qclt_le_weak in E.
    apply Qcopp_le_compat in E. exact E.
  - now apply Qc_ltb_false.
Qed.

Lemma nonneg_fadd x y : nonneg x -> nonneg y -> nonneg (fadd x y).
Proof.
  destruct x as [a| | |], y as [b| | |]; simpl; auto.
  intros Ha Hb. rewrite <- (Qcplus_0_l 0). now apply Qcplus_le_compat.
Qed.

Lemma nonneg_fold w acc :
  nonneg acc -> Forall nonneg w -> nonneg (fold_left fadd w acc).
Proof.
  revert acc. induction w as [|x w IH]; simpl; intros acc Ha Hw; auto.
  inversion Hw; subst. apply IH; [now apply nonneg_fadd | assumption].
Qed.

Lemma nonneg_window_sum f n i :
  (forall j, nonneg (f j)) -> nonneg (window_sum f n i).
Proof.
  intros H. unfold window_sum, sum_of_observations.
  destruct (forallb is_finite _); [|exact I].
  unfold fsum. apply nonneg_fold.
  - simpl. apply Qcle_refl.
  - apply Forall_forall. intros x Hx. apply in_map_iff in Hx as [j [<- _]].
    apply H.
Qed.

Lemma Fin_inj a b : Fin a = Fin b -> a = b.
Proof.
  intros H.
  exact (f_equal (fun x => match x with Fin q => q | _ => a end) H).
Qed.

(** Two such values that add up to exactly zero are both zero. *)
Lemma nonneg_sum_zero x y :
  nonneg x -> nonneg y -> fadd x y = F0 -> x = F0 /\ y = F0.
Proof.
  destruct x as [a| | |], y as [b| | |]; unfold fadd, nonneg, F0;
    intros Ha Hb E; try discriminate E; try contradiction.
  apply Fin_inj in E.
  assert (La : a <= 0).
  { rewrite <- E. rewrite <- (Qcplus_0_r a) at 1.
    apply Qcplus_le_compat; [apply Qcle_refl | assumption]. }
  assert (Ea : a = 0) by now apply Qcle_antisym.
  subst a. rewrite Qcplus_0_l in E. now subst b.
Qed.

(** When the windowed positive and negative sums add up to zero the
    oscillator is [0/0]. *)
Lemma cmo_zero_window close n d i :
  fadd (pos_sum_at close n d i) (neg_sum_at close n d i) = F0 ->
  fdiv (fsub (pos_sum_at close n d i) (neg_sum_at close n d i))
       (fadd (pos_sum_at close n d i) (neg_sum_at close n d i)) = NaN.
Proof.
  intros H.
  destruct (nonneg_sum_zero _ _
              (nonneg_window_sum _ n i (fun j => nonneg_clip_lower0 _))
              (nonneg_window_sum _ n i (fun j => nonneg_fabs _)) H)
    as [Hp Hq].
  unfold pos_sum_at, neg_sum_at in *. rewrite Hp, Hq. reflexivity.
Qed.

Lemma vidya_rec_nan_c alpha x prev : vidya_rec alpha NaN x prev = NaN.
Proof. unfold vidya_rec. now rewrite fmul_nan_r. Qed.

Lemma vidya_rec_nan_prev alpha c x : vidya_rec alpha c x NaN = NaN.
Proof. unfold vidya_rec. rewrite fmul_nan_l. apply fadd_nan_r. Qed.

(** A null oscillator makes the stored value null. *)
Lemma vidya_scan_null_oscillator close n d i :
  (1 <= n)%nat -> (n <= i < length close)%nat ->
  cmo_abs_at close n d i = NaN ->
  iloc (vidya_scan close n d) i = NaN.
Proof.
  intros Hn Hi Hc. destruct (vidya_scan_step close n d i Hn Hi) as [f Hf].
  rewrite Hf, Hc, vidya_rec_nan_c. apply kept_nan.
Qed.

(** A null to the left makes the stored value null. *)
Lemma vidya_scan_null_carry close n d i :
  (1 <= n)%nat -> (n <= i < length close)%nat ->
  iloc (vidya_scan close n d) (i - 1) = NaN ->
  iloc (vidya_scan close n d) i = NaN.
Proof.
  intros Hn Hi Hp. destruct (vidya_scan_step close n d i Hn Hi) as [f Hf].
  rewrite Hf, Hp, vidya_rec_nan_prev. apply kept_nan.
Qed.

(** Once null, the scan stays null to the end. *)
Lemma vidya_scan_poisoned close n d i k :
  (1 <= n)%nat -> (n <= i)%nat -> (i + k < length close)%nat ->
  iloc (vidya_scan close n d) i = NaN ->
  iloc (vidya_scan close n d) (i + k) = NaN.
Proof.
  intros Hn Hi. induction k as [|k IH]; intros Hk H0.
  - now rewrite Nat.add_0_r.
  - apply vidya_scan_null_carry; [assumption | lia |].
    replace (i + S k - 1)%nat with (i + k)%nat by lia.
    apply IH; (assumption || lia).
Qed.

Lemma iloc_replace_zero_nan_null s i :
  iloc s i = NaN -> iloc (replace_zero_nan s) i = NaN.
Proof.
  intros H. unfold replace_zero_nan. rewrite iloc_map by reflexivity.
  now rewrite H.
Qed.

(** C5.  In [vidya], if at a step [i >= n] the windowed positive and negative
    differences sum to exactly zero, the oscillator at [i] is not-a-number
    (0/0); the loop stores that not-a-number at [i]; every later position
    [j] is computed by the recurrence from a not-a-number [out[j-1]] and
    holds not-a-number too; and the call still returns a series, null at [i]
    and at every later position [j]. *)
Theorem vidya_zero_window_poisons (close : series) (length drift : option Z)
    (i j : nat) :
  let n := positive_or length 14 in
  let d := get_drift drift in
  let scan := vidya_scan close n d in
  (n <= i < List.length close)%nat ->
  fadd (pos_sum_at close n d i) (neg_sum_at close n d i) = F0 ->
  (i <= j < List.length close)%nat ->
  iloc (_cmo close n d) i = NaN
  /\ iloc scan i = NaN
  /\ iloc scan j = NaN
  /\ ((i < j)%nat ->
      iloc scan (j - 1) = NaN
      /\ exists f,
           iloc scan j
           = kept f (vidya_rec (vidya_alpha n) (cmo_abs_at close n d j)
                               (iloc close j) (iloc scan (j - 1))))
  /\ exists out,
       vidya (Some close) length drift None no_kwargs = Some out
       /\ iloc out i = NaN /\ iloc out j = NaN.
Proof.
  intros n d scan Hi Hz Hj.
  assert (Hn : (1 <= n)%nat) by (apply positive_or_pos; lia).
  assert (Hc : iloc (_cmo close n d) i = NaN).
  { rewrite iloc__cmo by lia. now apply cmo_zero_window. }
  assert (Hs : iloc scan i = NaN).
  { apply vidya_scan_null_oscillator; try assumption.
    unfold cmo_abs_at. now rewrite cmo_zero_window. }
  assert (Hall : forall k, (i <= k < List.length close)%nat ->
                           iloc scan k = NaN).
  { intros k Hk. replace k with (i + (k - i))%nat by lia.
    apply vidya_scan_poisoned; (assumption || lia). }
  split; [exact Hc|]. split; [exact Hs|]. split; [now apply Hall|].
  split.
  - intros Hlt. split; [apply Hall; lia|].
    apply vidya_scan_step; [assumption | lia].
  - exists (replace_zero_nan scan). split; [|split].
    + apply vidya_returns. fold n. lia.
    + now apply iloc_replace_zero_nan_null.
    + apply iloc_replace_zero_nan_null. now apply Hall.
Qed.

Lemma vidya_zero_window_poisons_witness :
  fadd (pos_sum_at (prices [1; 1; 1; 1; 3]%Z) 2 1 2)
       (neg_sum_at (prices [1; 1; 1; 1; 3]%Z) 2 1 2) = F0
  /\ iloc (_cmo (prices [1; 1; 1; 1; 3]%Z) 2 1) 2 = NaN
  /\ iloc (vidya_scan (prices [1; 1; 1; 1; 3]%Z) 2 1) 2 = NaN
  /\ iloc (vidya_scan (prices [1; 1; 1; 1; 3]%Z) 2 1) 4 = NaN
  /\ exists out,
       vidya (Some (prices [1; 1; 1; 1; 3]%Z)) (Some 2%Z) None None no_kwargs
         = Some out
       /\ iloc out 2 = NaN /\ iloc out 4 = NaN.
Proof.
  assert (Hz : fadd (pos_sum_at (prices [1; 1; 1; 1; 3]%Z) 2 1 2)
                    (neg_sum_at (prices [1; 1; 1; 1; 3]%Z) 2 1 2) = F0)
    by (apply float_eqb_eq; vm_compute; reflexivity).
  split; [exact Hz|].
  destruct (vidya_zero_window_poisons (prices [1; 1; 1; 1; 3]%Z) (Some 2%Z)
              None 2 4) as (H1 & H2 & H3 & _ & H5);
    [simpl; lia | exact Hz | simpl; lia |].
  repeat split; assumption.
Defined.

(** ** Offset *)

Lemma length_apply_offset k s : length (apply_offset k s) = length s.
Proof.
  unfold apply_offset. destruct (k =? 0)%Z; [reflexivity | apply length_shift].
Qed.

Lemma iloc_apply_offset k s i :
  (i < length s)%nat ->
  iloc (apply_offset k s) i =
    if (0 <=? Z.of_nat i - k)%Z then iloc s (Z.to_nat (Z.of_nat i - k))
    else NaN.
Proof.
  intros H. unfold apply_offset. destruct (Z.eqb_spec k 0) as [->|Hk].
  - rewrite Z.sub_0_r. destruct (Z.leb_spec 0 (Z.of_nat i)); [|lia].
    now rewrite Nat2Z.id.
  - now apply iloc_shift.
Qed.

(** C8, as the code has it.  An offset by [k] followed by an offset by [-k]
    gives back a series on the same index in which a position [i] holds its
    former value when [0 <= i + k < length], and null otherwise: the [|k|]
    values shifted past an end of the index are not restored. *)
Theorem offset_then_back (k : Z) (s : series) :
  apply_offset (- k) (apply_offset k s) = offset_survivors k s.
Proof.
  apply series_ext.
  - unfold offset_survivors.
    now rewrite !length_apply_offset, length_tabulate.
  - rewrite !length_apply_offset. intros i Hi. unfold offset_survivors.
    rewrite iloc_tabulate_lt by assumption.
    rewrite iloc_apply_offset by now rewrite length_apply_offset.
    replace (Z.of_nat i - - k)%Z with (Z.of_nat i + k)%Z by lia.
    destruct (Z.leb_spec 0 (Z.of_nat i + k)) as [H0|H0]; [|reflexivity].
    simpl andb.
    destruct (Z.ltb_spec (Z.of_nat i + k) (Z.of_nat (length s))) as [H1|H1].
    + rewrite iloc_apply_offset by lia.
      rewrite Z2Nat.id by assumption.
      replace (Z.of_nat i + k - k)%Z with (Z.of_nat i) by lia.
      destruct (Z.leb_spec 0 (Z.of_nat i)); [|lia].
      now rewrite Nat2Z.id.
    + apply iloc_overflow. rewrite length_apply_offset. lia.
Qed.

(** C8, as stated, fails: after an offset by [1] and an offset by [-1] the
    last position of [[1, 2, 3]] holds null, not [3]. *)
Lemma offset_then_back_loses_values :
  apply_offset (-1) (apply_offset 1 (prices [1; 2; 3]%Z))
    = [of_Z 1; of_Z 2; NaN]
  /\ apply_offset (-1) (apply_offset 1 (prices [1; 2; 3]%Z))
     <> prices [1; 2; 3]%Z.
Proof.
  split; [reflexivity | discriminate].
Qed.

(** ** dpo *)

Lemma length_sma close n : length (sma close n) = length close.
Proof. apply length_rolling_apply. Qed.

Lemma length_dpo_calc close n centered :
  length (dpo_calc close n centered) = length close.
Proof.
  unfold dpo_calc, ssub. destruct centered.
  - now rewrite length_shift, length_sbin, length_shift, length_sma, Nat.max_id.
  - now rewrite length_sbin, length_shift, length_sma, Nat.max_id.
Qed.

(** Centered: the moving average is read [t] positions ahead. *)
Lemma iloc_dpo_centered close n i :
  (i < length close)%nat ->
  iloc (dpo_calc close n true) i
  = fsub (iloc close i) (iloc (sma close n) (i + dpo_t n)).
Proof.
  intros Hi. unfold dpo_calc.
  set (t := dpo_t n).
  assert (L : length (ssub (shift (Z.of_nat t) close) (sma close n))
              = length close).
  { unfold ssub. now rewrite length_sbin, length_shift, length_sma, Nat.max_id. }
  rewrite iloc_shift by (rewrite L; assumption).
  destruct (Z.leb_spec 0 (Z.of_nat i - - Z.of_nat t)); [|lia].
  replace (Z.to_nat (Z.of_nat i - - Z.of_nat t)) with (i + t)%nat by lia.
  destruct (Nat.lt_ge_cases (i + t) (length close)) as [Hin|Hout].
  - unfold ssub. rewrite iloc_sbin
      by (rewrite length_shift, length_sma, Nat.max_id; assumption).
    rewrite iloc_shift by assumption.
    destruct (Z.leb_spec 0 (Z.of_nat (i + t) - Z.of_nat t)); [|lia].
    replace (Z.to_nat (Z.of_nat (i + t) - Z.of_nat t)) with i by lia.
    reflexivity.
  - rewrite iloc_overflow by (rewrite L; assumption).
    rewrite (iloc_overflow (sma close n)) by (rewrite length_sma; assumption).
    symmetry. apply fsub_nan_r.
Qed.

(** Not centered: the moving average is read [t] positions back. *)
Lemma iloc_dpo_lagged close n i :
  (i < length close)%nat ->
  iloc (dpo_calc close n false) i
  = if (dpo_t n <=? i)%nat
    then fsub (iloc close i) (iloc (sma close n) (i - dpo_t n))
    else NaN.
Proof.
  intros Hi. unfold dpo_calc, ssub.
  rewrite iloc_sbin by (rewrite length_shift, length_sma, Nat.max_id; assumption).
  rewrite iloc_shift by (rewrite length_sma; assumption).
  destruct (Nat.leb_spec (dpo_t n) i) as [H|H].
  - destruct (Z.leb_spec 0 (Z.of_nat i - Z.of_nat (dpo_t n))); [|lia].
    do 2 f_equal. lia.
  - destruct (Z.leb_spec 0 (Z.of_nat i - Z.of_nat (dpo_t n))); [lia|].
    apply fsub_nan_r.
Qed.

Lemma firstn_iloc (c c' : series) k j :
  firstn k c = firstn k c' -> (j < k)%nat -> iloc c j = iloc c' j.
Proof.
  intros H Hj. unfold iloc.
  assert (E : nth j (firstn k c) NaN = nth j (firstn k c') NaN)
    by now rewrite H.
  rewrite !nth_firstn in E.
  destruct (Nat.ltb_spec j k); [assumption | lia].
Qed.

(** A rolling value at [j] is a function of the series up to [j]. *)
Lemma rolling_apply_prefix n f (c c' : series) j :
  firstn (S j) c = firstn (S j) c' ->
  (j < length c)%nat -> (j < length c')%nat ->
  iloc (rolling_apply n f c) j = iloc (rolling_apply n f c') j.
Proof.
  intros H Hc Hc'. unfold rolling_apply.
  rewrite !iloc_tabulate_lt by assumption. cbv zeta.
  destruct (Nat.leb_spec n (S j)) as [Hn|Hn]; [|reflexivity].
  rewrite !window_tabulate by assumption.
  replace (map (iloc c') (seq (S j - n) n))
    with (map (iloc c) (seq (S j - n) n)); [reflexivity|].
  apply map_seq_ext. intros k Hk. apply (firstn_iloc c c' (S j)); [exact H | lia].
Qed.

Lemma firstn_prefix (c c' : series) k j :
  firstn k c = firstn k c' -> (j <= k)%nat -> firstn j c = firstn j c'.
Proof.
  intros H Hj. replace j with (Nat.min j k) by lia.
  rewrite <- !firstn_firstn. now rewrite H.
Qed.

Lemma dpo_returns close length centered kw :
  (positive_or length 20 <= List.length close)%nat ->
  kw_fillna kw = None -> kw_fill_method kw = None ->
  dpo (Some close) length centered None kw
  = Some (dpo_calc close (positive_or length 20) (dpo_centered centered kw)).
Proof.
  intros H F1 F2. unfold dpo. rewrite verify_series_ok by assumption.
  unfold get_offset, offset_and_fill, apply_fill, apply_offset.
  now rewrite F1, F2.
Qed.

(** C9.  With [centered] left at [True] and [lookahead] not set to [False],
    [dpo] at [i] is [close[i] - sma[i + t]] with [t = length // 2 + 1], a
    value that changes with inputs after [i]; with [centered] false (or
    [lookahead=False]) it is [close[i] - sma[i - t]] and is the same for any
    two inputs that agree up to [i]. *)
Theorem dpo_lookahead (close : series) (length : option Z) (kw : kwargs)
    (i : nat) :
  let n := positive_or length 20 in
  let t := (n / 2 + 1)%nat in
  (n <= List.length close)%nat -> (i < List.length close)%nat ->
  kw_fillna kw = None -> kw_fill_method kw = None ->
  (kw_lookahead kw <> Some false ->
   exists out,
     dpo (Some close) length true None kw = Some out
     /\ iloc out i = fsub (iloc close i) (iloc (sma close n) (i + t)))
  /\ (forall centered,
        centered = false \/ kw_lookahead kw = Some false ->
        exists out,
          dpo (Some close) length centered None kw = Some out
          /\ iloc out i = (if (t <=? i)%nat
                           then fsub (iloc close i) (iloc (sma close n) (i - t))
                           else NaN)
          /\ forall close',
               List.length close' = List.length close ->
               firstn (S i) close' = firstn (S i) close ->
               exists out',
                 dpo (Some close') length centered None kw = Some out'
                 /\ iloc out' i = iloc out i)
  /\ (exists c1 c2 : series,
        List.length c1 = List.length c2
        /\ firstn 4 c1 = firstn 4 c2
        /\ exists o1 o2,
             dpo (Some c1) (Some 2%Z) true None no_kwargs = Some o1
             /\ dpo (Some c2) (Some 2%Z) true None no_kwargs = Some o2
             /\ iloc o1 2 <> iloc o2 2).
Proof.
  intros n t Hn Hi F1 F2. split; [|split].
  - intros Hl. eexists. split.
    + apply dpo_returns; assumption.
    + assert (C : dpo_centered true kw = true).
      { unfold dpo_centered. destruct (kw_lookahead kw) as [ [ | ] | ]; congruence. }
      rewrite C. now apply iloc_dpo_centered.
  - intros centered Hc.
    assert (C : dpo_centered centered kw = false).
    { unfold dpo_centered. destruct Hc as [-> | ->]; [|reflexivity].
      now destruct (kw_lookahead kw) as [ [ | ] | ]. }
    eexists. split; [apply dpo_returns; assumption|]. rewrite C.
    split; [now apply iloc_dpo_lagged|].
    intros close' Hl Hp. eexists. split.
    + apply dpo_returns; try assumption. fold n. lia.
    + rewrite C, !iloc_dpo_lagged by lia.
      fold n. change (dpo_t n) with t.
      destruct (Nat.leb_spec t i) as [Ht|Ht]; [|reflexivity].
      f_equal.
      * apply (firstn_iloc close' close (S i)); [exact Hp | lia].
      * unfold sma. apply rolling_apply_prefix; try lia.
        apply (firstn_prefix close' close (S i)); [exact Hp | lia].
  - exists (prices [1; 2; 4; 3; 5]%Z), (prices [1; 2; 4; 3; 50]%Z).
    split; [reflexivity|]. split; [reflexivity|].
    do 2 eexists. split; [|split].
    + apply dpo_returns; (reflexivity || (simpl; lia)).
    + apply dpo_returns; (reflexivity || (simpl; lia)).
    + intros E. apply float_eqb_eq in E. vm_compute in E. discriminate.
Qed.

Lemma dpo_lookahead_witness :
  exists out,
    dpo (Some (prices [1; 2; 4; 3; 5]%Z)) (Some 2%Z) true None no_kwargs
      = Some out
    /\ iloc out 0
       = fsub (iloc (prices [1; 2; 4; 3; 5]%Z) 0)
              (iloc (sma (prices [1; 2; 4; 3; 5]%Z) 2) (0 + 2)).
Proof.
  destruct (dpo_lookahead (prices [1; 2; 4; 3; 5]%Z) (Some 2%Z) no_kwargs 0)
    as [H _]; [simpl; lia | simpl; lia | reflexivity | reflexivity |].
  apply H. discriminate.
Defined.

(** ** fwma *)

(** C10.  The result of [fwma] does not depend on [asc]: a falsy [asc]
    becomes [True], and the value is not read after that. *)
Theorem fwma_ignores_asc (close : option series) (length : option Z)
    (asc asc' : option bool) (offset : option Z) (kw : kwargs) :
  fwma close length asc offset kw = fwma close length asc' offset kw
  /\ fwma_asc None = true /\ fwma_asc (Some false) = true.
Proof. repeat split. Qed.

(** ** t3 *)

Lemma Qc_ltb_lt a b : a < b -> Qc_ltb a b = true.
Proof.
  intros H. unfold Qc_ltb.
  assert (E : (a ?= b) = Lt) by (apply Qclt_alt; exact H).
  now rewrite E.
Qed.

Lemma t3_a_in_range q : 0 < q -> q < 1 -> t3_a (Some (Fin q)) = Fin q.
Proof.
  intros H0 H1. unfold t3_a. now rewrite !Qc_ltb_lt.
Qed.

Lemma qz_opp z : qz (- z) = - qz z.
Proof.
  unfold qz. apply Qc_is_canon. unfold Qcopp, Q2Qc, this.
  rewrite !Qred_correct. unfold Qeq, Qopp, inject_Z. simpl. lia.
Qed.

Lemma t3_c1_eq q : t3_c1 (Fin q) = Fin (T3_c1 q).
Proof. unfold t3_c1, T3_c1. simpl. f_equal. ring. Qed.

Lemma t3_c2_eq q : t3_c2 (Fin q) = Fin (T3_c2 q).
Proof. unfold t3_c2, T3_c2, of_Z. fold (qz 3). simpl. f_equal. ring. Qed.

Lemma t3_c3_eq q : t3_c3 (Fin q) = Fin (T3_c3 q).
Proof.
  unfold t3_c3, T3_c3, of_Z. fold (qz 3) (qz (-6)).
  rewrite (qz_opp 6 : qz (-6) = - qz 6).
  simpl. f_equal. ring.
Qed.

Lemma t3_c4_eq q : t3_c4 (Fin q) = Fin (T3_c4 q).
Proof.
  unfold t3_c4, T3_c4, of_Z, F1. fold (qz 3). simpl. f_equal. ring.
Qed.

Lemma length_ema kw close n : length (ema kw close n) = length close.
Proof. apply length_tabulate. Qed.

Lemma length_scale c s : length (scale c s) = length s.
Proof. apply length_map. Qed.

Lemma iloc_scale c s i : iloc (scale c s) i = fmul c (iloc s i).
Proof. unfold scale. apply iloc_map. apply fmul_nan_r. Qed.

(** The bundled branch is the formula of Section 4.2 on the six chained
    passes. *)
Lemma t3_bundled_formula close n q kw :
  let e1 := ema kw close n in
  let e2 := ema kw e1 n in
  let e3 := ema kw e2 n in
  let e4 := ema kw e3 n in
  let e5 := ema kw e4 n in
  let e6 := ema kw e5 n in
  t3_bundled close n (Fin q) kw = T3_formula q e3 e4 e5 e6.
Proof.
  intros e1 e2 e3 e4 e5 e6. unfold t3_bundled, T3_formula.
  fold e1. fold e2. fold e3. fold e4. fold e5. fold e6.
  assert (L3 : length e3 = length close)
    by (unfold e3, e2, e1; now rewrite !length_ema).
  assert (L4 : length e4 = length close)
    by (unfold e4; now rewrite length_ema).
  assert (L5 : length e5 = length close)
    by (unfold e5; now rewrite length_ema, L4).
  assert (L6 : length e6 = length close)
    by (unfold e6; now rewrite length_ema, L5).
  apply series_ext.
  - unfold sadd. rewrite !length_sbin, !length_scale, length_tabulate. lia.
  - unfold sadd. rewrite !length_sbin, !length_scale. intros i Hi.
    rewrite iloc_tabulate_lt by lia.
    rewrite !iloc_sbin by (rewrite ?length_sbin, ?length_scale; lia).
    rewrite !iloc_scale.
    now rewrite t3_c1_eq, t3_c2_eq, t3_c3_eq, t3_c4_eq.
Qed.

(** C2.  On its bundled path, with [a] in (0,1), [t3] returns
    [c1*e6 + c2*e5 + c3*e4 + c4*e3] (then offset and filled as asked), where
    [e1] is the EMA of the input, each of [e2..e6] the EMA of the pass before
    it, all of window [n], and [c1 = -a^3], [c2 = 3a^2 + 3a^3],
    [c3 = -6a^2 - 3a - 3a^3], [c4 = a^3 + 3a^2 + 3a + 1]. *)
Theorem t3_chained_ema (close : series) (length : option Z) (q : Qc)
    (talib : option bool) (offset : option Z) (kw : kwargs) :
  let n := positive_or length 10 in
  let e1 := ema kw close n in
  let e2 := ema kw e1 n in
  let e3 := ema kw e2 n in
  let e4 := ema kw e3 n in
  let e5 := ema kw e4 n in
  let e6 := ema kw e5 n in
  0 < q -> q < 1 -> (n <= List.length close)%nat ->
  Imports_talib && mode_tal_of talib = false ->
  t3 (Some close) length (Some (Fin q)) talib offset kw
    = Some (offset_and_fill (get_offset offset) kw
              (T3_formula q e3 e4 e5 e6))
  /\ (offset = None -> kw_fillna kw = None -> kw_fill_method kw = None ->
      t3 (Some close) length (Some (Fin q)) talib offset kw
        = Some (T3_formula q e3 e4 e5 e6)).
Proof.
  intros n e1 e2 e3 e4 e5 e6 H0 H1 Hn Hp.
  assert (E : t3 (Some close) length (Some (Fin q)) talib offset kw
              = Some (offset_and_fill (get_offset offset) kw
                        (T3_formula q e3 e4 e5 e6))).
  { unfold t3. rewrite verify_series_ok by assumption.
    rewrite t3_a_in_range by assumption. rewrite Hp.
    fold n. now rewrite t3_bundled_formula. }
  split; [exact E|].
  intros -> F1 F2. rewrite E.
  unfold offset_and_fill, apply_fill, apply_offset, get_offset.
  now rewrite F1, F2.
Qed.

(** ** Defaults *)

(** C6.  What the code does with an absent [length]: [pvi] goes on with [1]
    where its docstring announces 13, and [dpo] goes on with [20] where its
    docstring announces 1.  On five prices the call without [length]
    therefore differs from the call with the documented default. *)
Theorem length_defaults_differ_from_docstrings :
  (forall close volume initial offset kw,
     pvi close volume None initial offset kw
     = pvi close volume (Some 1%Z) initial offset kw)
  /\ pvi (Some (prices [1; 2; 4; 3; 5]%Z)) (Some (prices [7; 9; 8; 9; 6]%Z))
         None None None no_kwargs
     <> pvi (Some (prices [1; 2; 4; 3; 5]%Z)) (Some (prices [7; 9; 8; 9; 6]%Z))
            (Some 13%Z) None None no_kwargs
  /\ (forall close centered offset kw,
        dpo close None centered offset kw
        = dpo close (Some 20%Z) centered offset kw)
  /\ dpo (Some (prices [1; 2; 4; 3; 5]%Z)) None true None no_kwargs = None
  /\ dpo (Some (prices [1; 2; 4; 3; 5]%Z)) (Some 1%Z) true None no_kwargs
     <> None.
Proof.
  split; [reflexivity|]. split; [discriminate|].
  split; [reflexivity|]. split; [reflexivity | discriminate].
Qed.

(** ** Validation *)

Lemma verify_series_none s n : verify_series s n = None <-> invalid s n.
Proof.
  unfold verify_series, invalid. destruct s as [c|]; [|tauto].
  destruct (Nat.ltb_spec (length c) n); split; intros H';
    (reflexivity || discriminate || lia || assumption).
Qed.

Lemma verify_series_some s n :
  ~ invalid s n -> exists c, s = Some c /\ verify_series s n = Some c
                             /\ (n <= length c)%nat.
Proof.
  unfold verify_series, invalid. destruct s as [c|]; [|tauto].
  intros H. exists c. destruct (Nat.ltb_spec (length c) n); [lia|].
  repeat split. assumption.
Qed.

Lemma invalid_dec s n : invalid s n \/ ~ invalid s n.
Proof.
  unfold invalid. destruct s as [c|]; [lia | now left].
Qed.

(** A single validated series decides the outcome. *)
Ltac one_series close n :=
  destruct (invalid_dec close n) as [Hi|Hv];
  [ pose proof (proj2 (verify_series_none close n) Hi) as E;
    rewrite E; tauto
  | destruct (verify_series_some close n Hv) as [c [-> [E _]]];
    rewrite E; split; [discriminate | intros; contradiction] ].

(** C7.  Each indicator returns [None] exactly when a required series is
    missing or shorter than the minimum length it validates against; no
    other input makes it fail. *)
Theorem invalid_series_returns_none :
  (forall close length scalar talib drift offset kw,
     cmo close length scalar talib drift offset kw = None
     <-> invalid close (positive_or length 14))
  /\ (forall high low close length offset kw,
        pgo high low close length offset kw = None
        <-> invalid high (positive_or length 14)
            \/ invalid low (positive_or length 14)
            \/ invalid close (positive_or length 14))
  /\ (forall close fast slow signal scalar offset kw,
        smi close fast slow signal scalar offset kw = None
        <-> invalid close
              (Nat.max (Nat.max (positive_or fast 5) (positive_or slow 20))
                       (positive_or signal 5)))
  /\ (forall close length asc offset kw,
        fwma close length asc offset kw = None
        <-> invalid close (positive_or length 10))
  /\ (forall close length a talib offset kw,
        t3 close length a talib offset kw = None
        <-> invalid close (positive_or length 10))
  /\ (forall close length drift offset kw,
        vidya close length drift offset kw = None
        <-> invalid close (positive_or length 14))
  /\ (forall close length centered offset kw,
        dpo close length centered offset kw = None
        <-> invalid close (positive_or length 20))
  /\ (forall close volume length initial offset kw,
        pvi close volume length initial offset kw = None
        <-> invalid close (positive_or length 1)
            \/ invalid volume (positive_or length 1)).
Proof.
  repeat match goal with |- _ /\ _ => split end.
  - intros close length *. unfold cmo.
    one_series close (positive_or length 14).
  - intros high low close length *. unfold pgo.
    set (n := positive_or length 14).
    destruct (invalid_dec high n) as [Hh|Hh].
    { rewrite (proj2 (verify_series_none high n) Hh). tauto. }
    destruct (verify_series_some high n Hh) as [h [-> [Eh _]]]. rewrite Eh.
    destruct (invalid_dec low n) as [Hl|Hl].
    { rewrite (proj2 (verify_series_none low n) Hl). tauto. }
    destruct (verify_series_some low n Hl) as [l [-> [El _]]]. rewrite El.
    destruct (invalid_dec close n) as [Hc|Hc].
    { rewrite (proj2 (verify_series_none close n) Hc). tauto. }
    destruct (verify_series_some close n Hc) as [c [-> [Ec _]]]. rewrite Ec.
    split; [discriminate | tauto].
  - intros close fast slow signal *. unfold smi.
    set (f := positive_or fast 5). set (s := positive_or slow 20).
    set (g := positive_or signal 5).
    destruct (Nat.ltb_spec s f) as [H|H].
    + replace (Nat.max (Nat.max s f) g) with (Nat.max (Nat.max f s) g) by lia.
      one_series close (Nat.max (Nat.max f s) g).
    + one_series close (Nat.max (Nat.max f s) g).
  - intros close length *. unfold fwma.
    one_series close (positive_or length 10).
  - intros close length *. unfold t3.
    one_series close (positive_or length 10).
  - intros close length *. unfold vidya.
    one_series close (positive_or length 14).
  - intros close length *. unfold dpo.
    one_series close (positive_or length 20).
  - intros close volume length *. unfold pvi.
    set (n := positive_or length 1).
    destruct (invalid_dec close n) as [Hc|Hc].
    { rewrite (proj2 (verify_series_none close n) Hc). tauto. }
    destruct (verify_series_some close n Hc) as [c [-> [Ec _]]]. rewrite Ec.
    destruct (invalid_dec volume n) as [Hw|Hw].
    { rewrite (proj2 (verify_series_none volume n) Hw). tauto. }
    destruct (verify_series_some volume n Hw) as [v [-> [Ev _]]]. rewrite Ev.
    split; [discriminate | tauto].
Qed.

(** ** Length and warm-up of the results *)


Lemma length_cumsum_from acc s : length (cumsum_from acc s) = length s.
Proof.
  revert acc. induction s as [|x s IH]; intros acc; simpl; auto.
  destruct (isnull x); simpl; now rewrite IH.
Qed.

Lemma length_offset_and_fill_plain s :
  length (offset_and_fill 0 no_kwargs s) = length s.
Proof. reflexivity. Qed.








Lemma length_replace_zero_nan s : length (replace_zero_nan s) = length s.
Proof. apply length_map. Qed.

Lemma vidya_warmup close n d i :
  (i < n)%nat ->
  iloc (replace_zero_nan (vidya_scan close n d)) i = NaN.
Proof.
  intros Hi.
  destruct (Nat.lt_ge_cases i (length close)) as [Hl|Hl].
  - unfold replace_zero_nan. rewrite iloc_map by reflexivity.
    now rewrite vidya_scan_before.
  - apply iloc_overflow.
    now rewrite length_replace_zero_nan, length_vidya_scan.
Qed.






(** *** The product [pvi] accumulates *)


Lemma at_label_abs l k : at_label (labelled_abs l) k = fabs (at_label l k).
Proof.
  induction l as [|[j x] l IH]; simpl; [reflexivity|].
  now destruct (j =? k)%nat.
Qed.

Lemma at_label_filter_from (s : series) a k :
  at_label (filter (fun p => match fsign (snd p) with
                             | Gt => true | _ => false end)
                   (combine (seq a (length s)) s)) k
  = if (a <=? k)%nat
    then match fsign (iloc s (k - a)) with
         | Gt => iloc s (k - a) | _ => NaN end
    else NaN.
Proof.
  revert a. induction s as [|x s IH]; intros a.
  - simpl. unfold iloc. destruct (k - a)%nat; now destruct (a <=? k)%nat.
  - cbn [length seq combine filter snd].
    destruct (Nat.eq_dec a k) as [->|Hne].
    + rewrite Nat.leb_refl, Nat.sub_diag. unfold iloc at 1 2. cbn [nth].
      destruct (fsign x) eqn:E.
      * rewrite IH. destruct (Nat.leb_spec (S k) k); [lia | reflexivity].
      * rewrite IH. destruct (Nat.leb_spec (S k) k); [lia | reflexivity].
      * cbn [at_label]. now rewrite Nat.eqb_refl.
    + assert (R : at_label (filter (fun p => match fsign (snd p) with
                                            | Gt => true | _ => false end)
                              (combine (seq (S a) (length s)) s)) k
                  = if (a <=? k)%nat
                    then match fsign (iloc (x :: s) (k - a)) with
                         | Gt => iloc (x :: s) (k - a) | _ => NaN end
                    else NaN).
      { rewrite IH.
        destruct (Nat.leb_spec (S a) k), (Nat.leb_spec a k);
          try lia; try reflexivity.
        replace (k - a)%nat with (S (k - S a)) by lia. reflexivity. }
      destruct (fsign x); try exact R.
      cbn [at_label]. destruct (Nat.eqb_spec a k); [contradiction | exact R].
Qed.

Lemma at_label_keep_positive (s : series) k :
  at_label (keep_positive s) k
  = match fsign (iloc s k) with Gt => iloc s k | _ => NaN end.
Proof.
  unfold keep_positive. rewrite at_label_filter_from.
  now rewrite Nat.sub_0_r.
Qed.



(** The product on the index of [a], followed by a null for each label
    past it. *)
Lemma smul_aligned_split (a : series) (b : labelled) :
  smul_aligned a b
  = tabulate (length a) (fun k => fmul (iloc a k) (at_label b k))
    ++ repeat NaN (length (labels_past (length a) b)).
Proof.
  unfold smul_aligned, tabulate. rewrite map_app. f_equal.
  unfold labels_past.
  induction (map fst b) as [|j l IH]; [reflexivity|]. simpl.
  destruct (Nat.leb_spec (length a) j) as [Hj|Hj]; [|exact IH].
  simpl. rewrite IH. f_equal.
  now rewrite iloc_overflow by assumption.
Qed.








Lemma verify_series_inv (c r : series) n :
  verify_series (Some c) n = Some r -> r = c /\ (n <= length c)%nat.
Proof.
  unfold verify_series. destruct (Nat.ltb_spec (length c) n); [discriminate|].
  intros [= <-]. split; [reflexivity | assumption].
Qed.

(** Opening a call that returned a series, for one validated input. *)
Ltac returned close n H :=
  let E := fresh "E" in
  let Hn := fresh "Hn" in
  destruct (verify_series (Some close) n) as [c'|] eqn:E; [|discriminate H];
  apply verify_series_inv in E as [-> Hn];
  injection H as <-.



(** ** The fill block *)

Lemma length_fillna v s : length (fillna v s) = length s.
Proof. apply length_map. Qed.

Lemma length_ffill_from last s : length (ffill_from last s) = length s.
Proof.
  revert last. induction s as [|x s IH]; intros last; simpl; auto.
Qed.

Lemma length_fillna_method m s : length (fillna_method m s) = length s.
Proof.
  destruct m; simpl.
  - apply length_ffill_from.
  - now rewrite length_rev, length_ffill_from, length_rev.
Qed.

Lemma length_apply_fill kw s : length (apply_fill kw s) = length s.
Proof.
  unfold apply_fill.
  destruct (kw_fill_method kw), (kw_fillna kw);
    now rewrite ?length_fillna_method, ?length_fillna.
Qed.

Lemma length_offset_and_fill k kw s : length (offset_and_fill k kw s) = length s.
Proof.
  unfold offset_and_fill. now rewrite length_apply_fill, length_apply_offset.
Qed.

(** A series without nulls. *)
Lemma no_null_fillna v s :
  isnull v = false -> forallb (fun x => negb (isnull x)) (fillna v s) = true.
Proof.
  intros Hv. unfold fillna. induction s as [|x s IH]; simpl; auto.
  rewrite IH, andb_true_r. destruct (isnull x) eqn:E; [now rewrite Hv|].
  now rewrite E.
Qed.

Lemma ffill_from_no_null last s :
  forallb (fun x => negb (isnull x)) s = true -> ffill_from last s = s.
Proof.
  revert last. induction s as [|x s IH]; intros last H; simpl in *; auto.
  apply andb_true_iff in H as [Hx Hs].
  destruct (isnull x); [discriminate|]. now rewrite IH.
Qed.

Lemma forallb_rev (f : float -> bool) s :
  forallb f (rev s) = forallb f s.
Proof.
  induction s as [|x s IH]; simpl; auto.
  rewrite forallb_app, IH. simpl. rewrite andb_true_r. apply andb_comm.
Qed.

Lemma fillna_method_no_null m s :
  forallb (fun x => negb (isnull x)) s = true -> fillna_method m s = s.
Proof.
  intros H. destruct m; simpl.
  - now apply ffill_from_no_null.
  - rewrite ffill_from_no_null by now rewrite forallb_rev.
    apply rev_involutive.
Qed.

(** With a non-null constant the fill block returns the constant fill, whatever
    fill method comes with it. *)
Lemma apply_fill_constant kw v s :
  kw_fillna kw = Some v -> isnull v = false ->
  apply_fill kw s = fillna v s.
Proof.
  intros Hk Hv. unfold apply_fill. rewrite Hk.
  destruct (kw_fill_method kw) as [m|]; [|reflexivity].
  apply fillna_method_no_null. now apply no_null_fillna.
Qed.

Lemma no_null_iloc s i :
  forallb (fun x => negb (isnull x)) s = true -> (i < length s)%nat ->
  isnull (iloc s i) = false.
Proof.
  intros H Hi. rewrite forallb_forall in H.
  apply negb_true_iff. apply H. unfold iloc. now apply nth_In.
Qed.

Lemma filled_no_null k kw v s i :
  kw_fillna kw = Some v -> isnull v = false ->
  (i < length s)%nat ->
  isnull (iloc (offset_and_fill k kw s) i) = false.
Proof.
  intros Hk Hv Hi. unfold offset_and_fill.
  rewrite (apply_fill_constant kw v) by assumption.
  apply no_null_iloc; [now apply no_null_fillna|].
  now rewrite length_fillna, length_apply_offset.
Qed.

(** Opening a call that returned a series, in the conclusion's favour: the
    validated input is the input. *)
Ltac returned_in close n H :=
  let E := fresh "E" in
  let Hn := fresh "Hn" in
  destruct (verify_series close n) as [c'|] eqn:E; [|discriminate H];
  injection H as <-.

(** X1.  With a non-null [fillna] constant no indicator returns a null: every
    position of every returned series holds a value, whatever the offset and
    the fill method. *)
Theorem constant_fill_leaves_no_null (kw : kwargs) (v : float) :
  kw_fillna kw = Some v -> isnull v = false ->
  (forall close length scalar talib drift offset r i,
     cmo close length scalar talib drift offset kw = Some r ->
     (i < List.length r)%nat -> isnull (iloc r i) = false)
  /\ (forall high low close length offset r i,
        pgo high low close length offset kw = Some r ->
        (i < List.length r)%nat -> isnull (iloc r i) = false)
  /\ (forall close fast slow signal scalar offset r1 r2 r3 i,
        smi close fast slow signal scalar offset kw = Some (r1, r2, r3) ->
        ((i < List.length r1)%nat -> isnull (iloc r1 i) = false)
        /\ ((i < List.length r2)%nat -> isnull (iloc r2 i) = false)
        /\ ((i < List.length r3)%nat -> isnull (iloc r3 i) = false))
  /\ (forall close length asc offset r i,
        fwma close length asc offset kw = Some r ->
        (i < List.length r)%nat -> isnull (iloc r i) = false)
  /\ (forall close length a talib offset r i,
        t3 close length a talib offset kw = Some r ->
        (i < List.length r)%nat -> isnull (iloc r i) = false)
  /\ (forall close length drift offset r i,
        vidya close length drift offset kw = Some r ->
        (i < List.length r)%nat -> isnull (iloc r i) = false)
  /\ (forall close length centered offset r i,
        dpo close length centered offset kw = Some r ->
        (i < List.length r)%nat -> isnull (iloc r i) = false)
  /\ (forall close volume length initial offset r i,
        pvi close volume length initial offset kw = Some r ->
        (i < List.length r)%nat -> isnull (iloc r i) = false).
Proof.
  intros Hk Hv.
  assert (F : forall k s i, (i < List.length (offset_and_fill k kw s))%nat ->
                            isnull (iloc (offset_and_fill k kw s) i) = false).
  { intros k s i Hi. rewrite length_offset_and_fill in Hi.
    now apply (filled_no_null k kw v). }
  repeat match goal with |- _ /\ _ => split end.
  - intros close length scalar talib drift offset r i H. unfold cmo in H.
    returned_in close (positive_or length 14) H. apply F.
  - intros high low close length offset r i H. unfold pgo in H.
    destruct (verify_series high _); [|discriminate H].
    destruct (verify_series low _); [|discriminate H].
    destruct (verify_series close _); [|discriminate H].
    injection H as <-. apply F.
  - intros close fast slow signal scalar offset r1 r2 r3 i H. unfold smi in H.
    destruct (positive_or slow 20 <? positive_or fast 5)%nat;
      (destruct (verify_series close _); [|discriminate H]);
      injection H as <- <- <-; repeat split; apply F.
  - intros close length asc offset r i H. unfold fwma in H.
    returned_in close (positive_or length 10) H. apply F.
  - intros close length a talib offset r i H. unfold t3 in H.
    returned_in close (positive_or length 10) H. apply F.
  - intros close length drift offset r i H. unfold vidya in H.
    returned_in close (positive_or length 14) H. apply F.
  - intros close length centered offset r i H. unfold dpo in H.
    returned_in close (positive_or length 20) H. apply F.
  - intros close volume length initial offset r i H. unfold pvi in H.
    destruct (verify_series close _); [|discriminate H].
    destruct (verify_series volume _); [|discriminate H].
    injection H as <-. apply F.
Qed.

(** X2.  When both fill options are given, the constant wins: [fillna] runs
    first and leaves nothing for [fill_method] to fill, so the result is the
    one obtained without a fill method. *)
Theorem fillna_makes_fill_method_idle (kw kw' : kwargs) (v : float) :
  kw_fillna kw = Some v -> isnull v = false ->
  kw_fillna kw' = Some v -> kw_fill_method kw' = None ->
  kw_lookahead kw' = kw_lookahead kw ->
  (forall close length scalar talib drift offset,
     cmo close length scalar talib drift offset kw
     = cmo close length scalar talib drift offset kw')
  /\ (forall high low close length offset,
        pgo high low close length offset kw
        = pgo high low close length offset kw')
  /\ (forall close fast slow signal scalar offset,
        smi close fast slow signal scalar offset kw
        = smi close fast slow signal scalar offset kw')
  /\ (forall close length asc offset,
        fwma close length asc offset kw = fwma close length asc offset kw')
  /\ (forall close length drift offset,
        vidya close length drift offset kw
        = vidya close length drift offset kw')
  /\ (forall close length centered offset,
        dpo close length centered offset kw
        = dpo close length centered offset kw')
  /\ (forall close volume length initial offset,
        pvi close volume length initial offset kw
        = pvi close volume length initial offset kw').
Proof.
  intros Hk Hv Hk' Hm Hl.
  assert (F : forall k s, offset_and_fill k kw s = offset_and_fill k kw' s).
  { intros k s. unfold offset_and_fill.
    rewrite (apply_fill_constant kw v), (apply_fill_constant kw' v)
      by assumption.
    reflexivity. }
  repeat match goal with |- _ /\ _ => split end; intros.
  - unfold cmo. destruct (verify_series close _); [|reflexivity].
    now rewrite F.
  - unfold pgo.
    destruct (verify_series high (positive_or length 14)); [|reflexivity].
    destruct (verify_series low (positive_or length 14)); [|reflexivity].
    destruct (verify_series close (positive_or length 14)); [|reflexivity].
    now rewrite F.
  - unfold smi.
    destruct (positive_or slow 20 <? positive_or fast 5)%nat;
      (destruct (verify_series close _); [|reflexivity]);
      now rewrite !F.
  - unfold fwma. destruct (verify_series close _); [|reflexivity].
    now rewrite F.
  - unfold vidya. destruct (verify_series close _); [|reflexivity].
    now rewrite F.
  - unfold dpo, dpo_centered. rewrite Hl.
    destruct (verify_series close _); [|reflexivity].
    now rewrite F.
  - unfold pvi.
    destruct (verify_series close (positive_or length 1)); [|reflexivity].
    destruct (verify_series volume (positive_or length 1)); [|reflexivity].
    now rewrite F.
Qed.

(** Forward fill: the value at [i] is null exactly when nothing non-null came
    before or at [i]. *)
Lemma ffill_null_iff last (s : series) i :
  (i < length s)%nat ->
  (isnull (iloc (ffill_from last s) i) = true
   <-> isnull last = true
       /\ forall j, (j <= i)%nat -> isnull (iloc s j) = true).
Proof.
  revert last i. induction s as [|x s IH]; intros last i Hi; [simpl in Hi; lia|].
  destruct i as [|i]; simpl.
  - unfold iloc. simpl. destruct (isnull x) eqn:Ex.
    + split.
      * intros H. split; [exact H|]. intros j Hj.
        replace j with 0%nat by lia. exact Ex.
      * intros [H _]. exact H.
    + split.
      * intros H. rewrite Ex in H. discriminate.
      * intros [_ H]. specialize (H 0%nat (le_n 0)). simpl in H.
        rewrite Ex in H. discriminate.
  - change (iloc (_ :: ffill_from ?l s) (S i)) with (iloc (ffill_from l s) i).
    simpl in Hi. rewrite IH by lia. destruct (isnull x) eqn:Ex.
    + split.
      * intros [Hl H]. split; [exact Hl|]. intros [|j] Hj; [exact Ex|].
        apply (H j). lia.
      * intros [Hl H]. split; [exact Hl|]. intros j Hj. apply (H (S j)). lia.
    + split.
      * intros [Hl _]. rewrite Ex in Hl. discriminate.
      * intros [_ H]. specialize (H 0%nat (Nat.le_0_l _)).
        unfold iloc in H. simpl in H. rewrite Ex in H. discriminate.
Qed.

Lemma isnull_true x : isnull x = true <-> x = NaN.
Proof. destruct x; simpl; split; (reflexivity || discriminate). Qed.

(** X3.  Forward fill does not reach the warm-up of [vidya]: with
    [fill_method="ffill"] the positions before [length] stay null, and a
    position is filled exactly when an unfilled value exists at or before
    it. *)
Theorem vidya_ffill_keeps_warmup (close : series) (length drift : option Z)
    (kw : kwargs) (i : nat) :
  let n := positive_or length 14 in
  let raw := replace_zero_nan (vidya_scan close n (get_drift drift)) in
  (n <= List.length close)%nat -> (i < List.length close)%nat ->
  kw_fillna kw = None -> kw_fill_method kw = Some Ffill ->
  exists r,
    vidya (Some close) length drift None kw = Some r
    /\ ((i < n)%nat -> iloc r i = NaN)
    /\ (iloc r i = NaN <-> forall j, (j <= i)%nat -> iloc raw j = NaN).
Proof.
  intros n raw Hn Hi Hk Hm.
  exists (ffill_from NaN raw).
  assert (Lr : List.length raw = List.length close)
    by (unfold raw; now rewrite length_replace_zero_nan, length_vidya_scan).
  assert (Iff : iloc (ffill_from NaN raw) i = NaN
                <-> forall j, (j <= i)%nat -> iloc raw j = NaN).
  { rewrite <- isnull_true, ffill_null_iff by lia. split.
    - intros [_ H] j Hj. apply isnull_true. now apply H.
    - intros H. split; [reflexivity|]. intros j Hj. apply isnull_true.
      now apply H. }
  split; [|split].
  - unfold vidya. rewrite verify_series_ok by assumption.
    unfold offset_and_fill, apply_fill, apply_offset, get_offset.
    now rewrite Hk, Hm.
  - intros Hlt. apply Iff. intros j Hj. apply vidya_warmup. lia.
  - exact Iff.
Qed.

Lemma vidya_ffill_keeps_warmup_witness :
  exists r,
    vidya (Some (prices [1; 2; 4; 3; 5]%Z)) (Some 2%Z) None None
          {| kw_fillna := None; kw_fill_method := Some Ffill;
             kw_lookahead := None; kw_adjust := None; kw_presma := None |}
      = Some r
    /\ iloc r 1 = NaN.
Proof.
  destruct (vidya_ffill_keeps_warmup (prices [1; 2; 4; 3; 5]%Z) (Some 2%Z)
              None
              {| kw_fillna := None; kw_fill_method := Some Ffill;
                 kw_lookahead := None; kw_adjust := None; kw_presma := None |}
              1)
    as [r [E [W _]]];
    [simpl; lia | simpl; lia | reflexivity | reflexivity |].
  exists r. split; [exact E | apply W; simpl; lia].
Defined.

(** ** Offsets compose *)

(** X4.  Two offsets in the same direction add up: shifting by [b] and then
    by [a] is shifting by [a + b]. *)
Theorem offsets_add (a b : Z) (s : series) :
  (0 <= a /\ 0 <= b)%Z \/ (a <= 0 /\ b <= 0)%Z ->
  apply_offset a (apply_offset b s) = apply_offset (a + b) s.
Proof.
  intros Hs. apply series_ext.
  - now rewrite !length_apply_offset.
  - rewrite !length_apply_offset. intros i Hi.
    rewrite (iloc_apply_offset a) by now rewrite length_apply_offset.
    rewrite (iloc_apply_offset (a + b) s i) by assumption.
    destruct (Z.leb_spec 0 (Z.of_nat i - a)) as [Ha|Ha].
    + destruct (Nat.lt_ge_cases (Z.to_nat (Z.of_nat i - a)) (List.length s))
        as [Hin|Hout].
      * rewrite iloc_apply_offset by assumption.
        rewrite Z2Nat.id by assumption.
        replace (Z.of_nat i - a - b)%Z with (Z.of_nat i - (a + b))%Z by lia.
        reflexivity.
      * rewrite iloc_overflow by (rewrite length_apply_offset; assumption).
        destruct (Z.leb_spec 0 (Z.of_nat i - (a + b))); [|reflexivity].
        symmetry. apply iloc_overflow. lia.
    + destruct (Z.leb_spec 0 (Z.of_nat i - (a + b))); [lia | reflexivity].
Qed.

Lemma offsets_add_witness :
  apply_offset 1 (apply_offset 2 (prices [1; 2; 4; 3; 5]%Z))
  = apply_offset (1 + 2) (prices [1; 2; 4; 3; 5]%Z).
Proof.
  apply (offsets_add 1 2 (prices [1; 2; 4; 3; 5]%Z)). left. lia.
Defined.

(** ** Flat prices *)

Lemma zero_or_null_fold w acc :
  zero_or_null acc -> Forall zero_or_null w ->
  zero_or_null (fold_left fadd w acc).
Proof.
  revert acc. induction w as [|x w IH]; simpl; intros acc Ha Hw; auto.
  inversion Hw; subst. apply IH; [|assumption].
  destruct Ha as [-> | ->], H1 as [-> | ->];
    [left | left | left | right]; reflexivity.
Qed.

Lemma diff_at_flat c m d j :
  zero_or_null (diff_at (repeat (Fin c) m) d j).
Proof.
  unfold diff_at. destruct (d <=? j)%nat; [|now left].
  destruct (Nat.lt_ge_cases j m) as [Hj|Hj].
  - rewrite !iloc_repeat by lia. right.
    unfold fsub, fopp, fadd, F0. f_equal. apply Qcplus_opp_r.
  - rewrite (iloc_overflow _ j) by now rewrite repeat_length. now left.
Qed.

Lemma window_sum_flat (f : nat -> float) n i :
  (forall j, zero_or_null (f j)) -> zero_or_null (window_sum f n i).
Proof.
  intros H. unfold window_sum, sum_of_observations.
  destruct (forallb is_finite _); [|now left].
  unfold fsum. apply zero_or_null_fold; [now right|].
  apply Forall_forall. intros x Hx. apply in_map_iff in Hx as [j [<- _]].
  apply H.
Qed.

Lemma cmo_abs_flat c m n d i : cmo_abs_at (repeat (Fin c) m) n d i = NaN.
Proof.
  unfold cmo_abs_at, pos_sum_at, neg_sum_at.
  set (P := window_sum _ n i). set (N := window_sum _ n i).
  assert (HP : zero_or_null P).
  { apply window_sum_flat. intros j.
    destruct (diff_at_flat c m d j) as [-> | ->]; [now left | now right]. }
  assert (HN : zero_or_null N).
  { apply window_sum_flat. intros j.
    destruct (diff_at_flat c m d j) as [-> | ->]; [now left | now right]. }
  destruct HP as [-> | ->], HN as [-> | ->]; reflexivity.
Qed.

(** X6.  On a flat series [vidya] returns nothing but nulls: every difference
    is zero, the oscillator is [0/0] at every step, and the warm-up is null
    anyway. *)
Theorem vidya_flat_is_null (c : Qc) (m : nat) (length drift : option Z) :
  (positive_or length 14 <= m)%nat ->
  vidya (Some (repeat (Fin c) m)) length drift None no_kwargs
  = Some (repeat NaN m).
Proof.
  intros Hn. set (n := positive_or length 14) in *.
  assert (H1 : (1 <= n)%nat) by (apply positive_or_pos; lia).
  rewrite vidya_returns by now rewrite repeat_length.
  fold n. f_equal. apply series_ext.
  - now rewrite length_replace_zero_nan, length_vidya_scan, !repeat_length.
  - rewrite length_replace_zero_nan, length_vidya_scan, repeat_length.
    intros i Hi. rewrite iloc_repeat by assumption.
    destruct (Nat.lt_ge_cases i n) as [Hlt|Hge].
    + now apply vidya_warmup.
    + apply iloc_replace_zero_nan_null.
      apply vidya_scan_null_oscillator;
        [assumption | rewrite repeat_length; lia | apply cmo_abs_flat].
Qed.

Lemma vidya_flat_is_null_witness :
  vidya (Some (repeat (Fin 1) 5)) (Some 2%Z) None None no_kwargs
  = Some (repeat NaN 5).
Proof.
  apply (vidya_flat_is_null 1 5 (Some 2%Z) None). simpl. lia.
Defined.

(** ** No look-ahead *)

Lemma diff_at_prefix (c c' : series) d j k :
  firstn k c = firstn k c' -> (j < k)%nat ->
  diff_at c d j = diff_at c' d j.
Proof.
  intros H Hj. unfold diff_at. destruct (d <=? j)%nat; [|reflexivity].
  rewrite (firstn_iloc c c' k j), (firstn_iloc c c' k (j - d))
    by (assumption || lia).
  reflexivity.
Qed.

Lemma cmo_abs_at_prefix (c c' : series) n d i :
  firstn (S i) c = firstn (S i) c' -> (n <= S i)%nat ->
  cmo_abs_at c n d i = cmo_abs_at c' n d i.
Proof.
  intros H Hn. unfold cmo_abs_at, pos_sum_at, neg_sum_at, window_sum.
  assert (E : forall g : float -> float,
            map (fun j => g (diff_at c d j)) (seq (S i - n) n)
            = map (fun j => g (diff_at c' d j)) (seq (S i - n) n)).
  { intros g. apply map_seq_ext. intros j Hj. f_equal.
    apply (diff_at_prefix c c' d j (S i)); [assumption | lia]. }
  rewrite (E clip_lower0), (E (fun x => fabs (clip_upper0 x))). reflexivity.
Qed.

(** Two runs of the loop over inputs that agree on the positions written
    leave the same values there, in buffers of the same kind. *)
Lemma scan_agree alpha (A C A' C' : series) k a (b b' : buffer) :
  (forall j, (a <= j < a + k)%nat ->
             iloc A j = iloc A' j /\ iloc C j = iloc C' j) ->
  is_int64 b = is_int64 b' ->
  (forall j, (j < a + k)%nat -> iloc (cells b) j = iloc (cells b') j) ->
  (1 <= a)%nat ->
  (a + k <= length (cells b))%nat -> (a + k <= length (cells b'))%nat ->
  is_int64 (fold_left (vidya_update alpha A C) (seq a k) b)
  = is_int64 (fold_left (vidya_update alpha A' C') (seq a k) b')
  /\ forall j, (j < a + k)%nat ->
       iloc (cells (fold_left (vidya_update alpha A C) (seq a k) b)) j
       = iloc (cells (fold_left (vidya_update alpha A' C') (seq a k) b')) j.
Proof.
  intros HAC Hf Hc Ha. induction k as [|k IH]; intros Lb Lb'.
  - simpl. split; [exact Hf | exact Hc].
  - rewrite !seq_S, !fold_left_app. simpl.
    set (mid := fold_left (vidya_update alpha A C) (seq a k) b).
    set (mid' := fold_left (vidya_update alpha A' C') (seq a k) b').
    destruct IH as [If Ic]; try lia.
    { intros j Hj. apply HAC. lia. }
    { intros j Hj. apply Hc. lia. }
    fold mid mid' in If, Ic.
    assert (Lm : length (cells mid) = length (cells b))
      by apply length_scan.
    assert (Lm' : length (cells mid') = length (cells b'))
      by apply length_scan.
    destruct (HAC (a + k)%nat ltac:(lia)) as [EA EC].
    unfold vidya_update.
    rewrite !is_int64_buffer_set, !cells_buffer_set.
    rewrite <- EA, <- EC, <- If, <- (Ic (a + k - 1)%nat) by lia.
    split; [reflexivity|].
    intros j Hj. destruct (Nat.eq_dec j (a + k)) as [->|Hne].
    + now rewrite !iloc_set_iloc_eq by lia.
    + rewrite !iloc_set_iloc_neq by lia. apply Ic. lia.
Qed.

Lemma vidya_scan_prefix (c c' : series) n d i :
  (1 <= n)%nat ->
  firstn (S i) c = firstn (S i) c' ->
  (i < length c)%nat -> (i < length c')%nat ->
  iloc (vidya_scan c n d) i = iloc (vidya_scan c' n d) i.
Proof.
  intros Hn Hp Hc Hc'.
  destruct (Nat.lt_ge_cases i n) as [Hlt|Hge].
  - now rewrite !vidya_scan_before by lia.
  - unfold vidya_scan, vidya_loop.
    replace (length c - n)%nat
      with ((S i - n) + (length c - S i))%nat by lia.
    replace (length c' - n)%nat
      with ((S i - n) + (length c' - S i))%nat by lia.
    rewrite !seq_app, !fold_left_app.
    replace (n + (S i - n))%nat with (S i) by lia.
    rewrite (scan_untouched _ (sabs (_cmo c n d))) by lia.
    rewrite (scan_untouched _ (sabs (_cmo c' n d))) by lia.
    assert (H : forall j, (j < n + (S i - n))%nat ->
              iloc (cells (fold_left
                             (vidya_update (vidya_alpha n)
                                (sabs (_cmo c n d)) c)
                             (seq n (S i - n))
                             {| is_int64 := true;
                                cells := repeat F0 (length c) |})) j
              = iloc (cells (fold_left
                               (vidya_update (vidya_alpha n)
                                  (sabs (_cmo c' n d)) c')
                               (seq n (S i - n))
                               {| is_int64 := true;
                                  cells := repeat F0 (length c') |})) j).
    { eapply proj2. apply scan_agree.
      - intros j Hj. split.
        + rewrite !iloc_abs_cmo by lia.
          apply cmo_abs_at_prefix; [|lia].
          apply (firstn_prefix c c' (S i)); [assumption | lia].
        + apply (firstn_iloc c c' (S i)); [assumption | lia].
      - reflexivity.
      - intros j Hj. cbn [cells]. now rewrite !iloc_repeat by lia.
      - exact Hn.
      - cbn [cells]. rewrite repeat_length. lia.
      - cbn [cells]. rewrite repeat_length. lia. }
    apply H. lia.
Qed.

(** X7.  [vidya] has no look-ahead: two inputs that agree up to position [i]
    give the same value at [i], whatever follows. *)
Theorem vidya_no_lookahead (c1 c2 : series) (length drift : option Z)
    (r r' : series) (i : nat) :
  vidya (Some c1) length drift None no_kwargs = Some r ->
  vidya (Some c2) length drift None no_kwargs = Some r' ->
  firstn (S i) c1 = firstn (S i) c2 ->
  (i < List.length c1)%nat -> (i < List.length c2)%nat ->
  iloc r i = iloc r' i.
Proof.
  intros H H' Hp Hc Hc'. unfold vidya in H, H'.
  returned c1 (positive_or length 14) H.
  returned c2 (positive_or length 14) H'.
  rewrite !offset_and_fill_plain. unfold replace_zero_nan.
  rewrite !iloc_map by reflexivity.
  rewrite (vidya_scan_prefix c1 c2)
    by (try assumption; apply positive_or_pos; lia).
  reflexivity.
Qed.

Lemma vidya_no_lookahead_witness :
  exists r r',
    vidya (Some (prices [1; 2; 4; 3; 5]%Z)) (Some 2%Z) None None no_kwargs
      = Some r
    /\ vidya (Some (prices [1; 2; 4; 9; 9]%Z)) (Some 2%Z) None None no_kwargs
       = Some r'
    /\ iloc r 2 = iloc r' 2.
Proof.
  do 2 eexists. split; [reflexivity|]. split; [reflexivity|].
  apply (vidya_no_lookahead (prices [1; 2; 4; 3; 5]%Z)
           (prices [1; 2; 4; 9; 9]%Z) (Some 2%Z) None _ _ 2);
    try reflexivity; simpl; lia.
Defined.

(** X8.  [fwma] has no look-ahead either: its value at [i] is a function of
    the input up to [i]. *)
Theorem fwma_no_lookahead (c1 c2 : series) (length : option Z)
    (asc : option bool) (r r' : series) (i : nat) :
  fwma (Some c1) length asc None no_kwargs = Some r ->
  fwma (Some c2) length asc None no_kwargs = Some r' ->
  firstn (S i) c1 = firstn (S i) c2 ->
  (i < List.length c1)%nat -> (i < List.length c2)%nat ->
  iloc r i = iloc r' i.
Proof.
  intros H H' Hp Hc Hc'. unfold fwma in H, H'.
  returned c1 (positive_or length 10) H.
  returned c2 (positive_or length 10) H'.
  rewrite !offset_and_fill_plain. now apply rolling_apply_prefix.
Qed.

Lemma fwma_no_lookahead_witness :
  exists r r',
    fwma (Some (prices [1; 2; 4; 3; 5]%Z)) (Some 2%Z) None None no_kwargs
      = Some r
    /\ fwma (Some (prices [1; 2; 4; 9; 9]%Z)) (Some 2%Z) None None no_kwargs
       = Some r'
    /\ iloc r 2 = iloc r' 2.
Proof.
  do 2 eexists. split; [reflexivity|]. split; [reflexivity|].
  apply (fwma_no_lookahead (prices [1; 2; 4; 3; 5]%Z)
           (prices [1; 2; 4; 9; 9]%Z) (Some 2%Z) None _ _ 2);
    try reflexivity; simpl; lia.
Defined.

(** X9.  Centered [dpo] cannot fill its tail: the last [t = length // 2 + 1]
    positions, whose moving average lies past the end of the series, are
    null. *)
Theorem dpo_centered_tail_is_null (close : series) (length : option Z)
    (kw : kwargs) (i : nat) :
  let n := positive_or length 20 in
  (n <= List.length close)%nat ->
  kw_fillna kw = None -> kw_fill_method kw = None ->
  kw_lookahead kw <> Some false ->
  (List.length close <= i + (n / 2 + 1))%nat ->
  exists r,
    dpo (Some close) length true None kw = Some r /\ iloc r i = NaN.
Proof.
  intros n Hn F1 F2 Hl Hi. eexists. split.
  - apply dpo_returns; assumption.
  - assert (C : dpo_centered true kw = true).
    { unfold dpo_centered. destruct (kw_lookahead kw) as [ [ | ] | ];
        congruence. }
    rewrite C. fold n.
    destruct (Nat.lt_ge_cases i (List.length close)) as [Hlt|Hge].
    + rewrite iloc_dpo_centered by assumption.
      rewrite (iloc_overflow (sma close n))
        by (rewrite length_sma; unfold dpo_t; lia).
      apply fsub_nan_r.
    + apply iloc_overflow. now rewrite length_dpo_calc.
Qed.

Lemma dpo_centered_tail_is_null_witness :
  exists r,
    dpo (Some (prices [1; 2; 4; 3; 5]%Z)) (Some 2%Z) true None no_kwargs
      = Some r
    /\ iloc r 3 = NaN.
Proof.
  apply (dpo_centered_tail_is_null (prices [1; 2; 4; 3; 5]%Z) (Some 2%Z)
           no_kwargs 3);
    try reflexivity; try discriminate; simpl; lia.
Defined.

(** ** smi *)

(** X10.  [smi] orders its two periods itself: with both given and positive,
    swapping [fast] and [slow] changes nothing. *)
Theorem smi_fast_slow_symmetric (close : option series) (f s : Z)
    (signal : option Z) (scalar : option float) (offset : option Z)
    (kw : kwargs) :
  (0 < f)%Z -> (0 < s)%Z ->
  smi close (Some f) (Some s) signal scalar offset kw
  = smi close (Some s) (Some f) signal scalar offset kw.
Proof.
  intros Hf Hs. unfold smi, positive_or.
  destruct (Z.ltb_spec 0 f); [|lia]. destruct (Z.ltb_spec 0 s); [|lia].
  destruct (Nat.ltb_spec (Z.to_nat s) (Z.to_nat f)) as [H1|H1];
    destruct (Nat.ltb_spec (Z.to_nat f) (Z.to_nat s)) as [H2|H2];
    try lia; try reflexivity.
  replace (Z.to_nat s) with (Z.to_nat f) by lia. reflexivity.
Qed.

Lemma shift_ssub k (a b : series) :
  length a = length b ->
  shift k (ssub a b) = ssub (shift k a) (shift k b).
Proof.
  intros L. apply series_ext.
  - unfold ssub. now rewrite length_shift, !length_sbin, !length_shift.
  - rewrite length_shift. unfold ssub at 1. rewrite length_sbin, <- L, Nat.max_id.
    intros i Hi.
    rewrite iloc_shift by (unfold ssub; rewrite length_sbin; lia).
    unfold ssub at 2.
    rewrite iloc_sbin by (rewrite !length_shift; lia).
    rewrite !iloc_shift by lia.
    destruct (Z.leb_spec 0 (Z.of_nat i - k)); [|reflexivity].
    destruct (Nat.lt_ge_cases (Z.to_nat (Z.of_nat i - k)) (length a))
      as [Hin|Hout].
    + unfold ssub. now rewrite iloc_sbin by lia.
    + rewrite !iloc_overflow by (unfold ssub; rewrite ?length_sbin; lia).
      reflexivity.
Qed.

(** X11.  The oscillator column of [smi] is its first column minus its signal
    column at every position, under any offset, as long as no fill is
    asked for. *)
Theorem smi_oscillator_is_difference (close : option series)
    (fast slow signal : option Z) (scalar : option float) (offset : option Z)
    (kw : kwargs) (r1 r2 r3 : series) :
  kw_fillna kw = None -> kw_fill_method kw = None ->
  smi close fast slow signal scalar offset kw = Some (r1, r2, r3) ->
  r3 = ssub r1 r2.
Proof.
  intros F1 F2 H. unfold smi in H.
  assert (E : forall k a b, length a = length b ->
              offset_and_fill k kw (ssub a b)
              = ssub (offset_and_fill k kw a) (offset_and_fill k kw b)).
  { intros k a b L. unfold offset_and_fill, apply_fill, apply_offset.
    rewrite F1, F2. destruct (k =? 0)%Z; [reflexivity|].
    now apply shift_ssub. }
  destruct (positive_or slow 20 <? positive_or fast 5)%nat;
    (destruct (verify_series close _) as [c|]; [|discriminate H]);
    injection H as <- <- <-; apply E;
    unfold tsi; simpl; now rewrite !length_tabulate.
Qed.

(** ** pvi *)

Lemma fadd_0_r x : fadd x F0 = x.
Proof.
  destruct x as [a| | |]; try reflexivity.
  unfold fadd, F0. f_equal. apply Qcplus_0_r.
Qed.

(** On a series without nulls the running sum advances by the new value. *)
Lemma cumsum_from_step (p : series) acc i :
  forallb (fun x => negb (isnull x)) p = true ->
  (S i < length p)%nat ->
  iloc (cumsum_from acc p) (S i)
  = fadd (iloc (cumsum_from acc p) i) (iloc p (S i)).
Proof.
  revert acc i. induction p as [|x r IH]; intros acc i Hp Hi;
    [simpl in Hi; lia|].
  simpl in Hp. apply andb_true_iff in Hp as [Hx Hr].
  apply negb_true_iff in Hx. simpl. rewrite Hx.
  change (iloc (?a :: ?l) (S i)) with (iloc l i).
  destruct i as [|k].
  - destruct r as [|y r']; [simpl in Hi; lia|].
    simpl in Hr. apply andb_true_iff in Hr as [Hy _].
    apply negb_true_iff in Hy. simpl. rewrite Hy. reflexivity.
  - change (iloc (?a :: ?l) (S k)) with (iloc l k).
    apply IH; [assumption | simpl in Hi; lia].
Qed.

Lemma no_null_set_first (p : series) v :
  forallb (fun x => negb (isnull x)) p = true -> isnull v = false ->
  forallb (fun x => negb (isnull x)) (set_iloc p 0 v) = true.
Proof.
  intros Hp Hv. destruct p as [|x r]; [reflexivity|].
  simpl in *. apply andb_true_iff in Hp as [_ Hr]. now rewrite Hv, Hr.
Qed.

(** Past the end of [a] the product is null, as [a] is. *)
Lemma iloc_smul_aligned (a : series) (b : labelled) i :
  iloc (smul_aligned a b) i = fmul (iloc a i) (at_label b i).
Proof.
  rewrite smul_aligned_split.
  destruct (Nat.lt_ge_cases i (length a)) as [Hin|Hout].
  - unfold iloc at 1. rewrite app_nth1 by now rewrite length_tabulate.
    fold (iloc (tabulate (length a)
                  (fun k => fmul (iloc a k) (at_label b k))) i).
    now rewrite iloc_tabulate_lt.
  - rewrite (iloc_overflow a i) by assumption. unfold iloc.
    rewrite app_nth2 by now rewrite length_tabulate.
    rewrite length_tabulate.
    destruct (Nat.lt_ge_cases (i - length a)
                (length (labels_past (length a) b))) as [H|H].
    + now rewrite nth_repeat_lt.
    + apply nth_overflow. now rewrite repeat_length.
Qed.

Lemma iloc_pvi_terms (close volume : series) n i :
  (i < length (smul_aligned (roc close n)
                 (labelled_abs (keep_positive (signed_series volume 1)))))%nat ->
  iloc (fillna F0 (smul_aligned (roc close n)
                     (labelled_abs (keep_positive (signed_series volume 1)))))
       i
  = pvi_increment (iloc (roc close n) i) (iloc (signed_series volume 1) i).
Proof.
  intros Hi. unfold fillna. rewrite iloc_map_lt by assumption.
  rewrite iloc_smul_aligned, at_label_abs, at_label_keep_positive.
  reflexivity.
Qed.

(** X12.  [pvi] is a running total: from the second position on, each value
    is the one before it plus that bar's increment, and on a bar whose signed
    volume is not positive the index does not move. *)
Theorem pvi_accumulates (close volume : series) (length initial : option Z)
    (r : series) (i : nat) :
  let n := positive_or length 1 in
  pvi (Some close) (Some volume) length initial None no_kwargs = Some r ->
  (1 <= i < List.length r)%nat ->
  iloc r i
  = fadd (iloc r (i - 1))
         (pvi_increment (iloc (roc close n) i)
                        (iloc (signed_series volume 1) i))
  /\ (fsign (iloc (signed_series volume 1) i) <> Gt ->
      iloc r i = iloc r (i - 1)).
Proof.
  intros n H Hi. unfold pvi in H.
  destruct (verify_series (Some close) _) as [c1|] eqn:E; [|discriminate H].
  apply verify_series_inv in E as [-> Hn].
  destruct (verify_series (Some volume) _) as [v1|] eqn:E'; [|discriminate H].
  apply verify_series_inv in E' as [-> _].
  injection H as <-.
  rewrite length_offset_and_fill_plain in Hi. fold n in Hi.
  rewrite offset_and_fill_plain.
  assert (Step : iloc (pvi_calc close volume n (positive_or initial 1000)) i
              = fadd (iloc (pvi_calc close volume n
                              (positive_or initial 1000)) (i - 1))
                     (pvi_increment (iloc (roc close n) i)
                        (iloc (signed_series volume 1) i))).
  { unfold pvi_calc, cumsum.
    set (p := fillna F0 _).
    assert (Lp : List.length p
                 = List.length (pvi_calc close volume n
                                  (positive_or initial 1000))).
    { unfold pvi_calc, cumsum. fold p.
      now rewrite length_cumsum_from, length_set_iloc. }
    destruct i as [|k]; [lia|].
    replace (S k - 1)%nat with k by lia.
    rewrite cumsum_from_step.
    - rewrite iloc_set_iloc_neq by lia. unfold p.
      assert (Li : (S k < List.length p)%nat) by lia.
      unfold p, fillna in Li. rewrite length_map in Li.
      now rewrite iloc_pvi_terms.
    - apply no_null_set_first; [now apply no_null_fillna | reflexivity].
    - rewrite length_set_iloc. lia. }
  split; [exact Step|].
  intros Hs. etransitivity; [exact Step|]. unfold pvi_increment.
  destruct (fsign (iloc (signed_series volume 1) i)); try congruence;
    simpl fabs; rewrite fmul_nan_r; apply fadd_0_r.
Qed.

(** ** cmo *)

Lemma fmul_1_l x : fmul F1 x = x.
Proof.
  destruct x as [a| | |]; try reflexivity.
  unfold fmul, F1. f_equal. apply Qcmult_1_l.
Qed.

Lemma scale_1 s : scale F1 s = s.
Proof.
  unfold scale. rewrite <- (map_id s) at 2. apply map_ext, fmul_1_l.
Qed.

(** X13.  The oscillator [vidya] carries as [_cmo] is [cmo] itself on its
    rolling-sum path ([talib=False]) with [scalar=1]. *)
Theorem cmo_unit_scalar_is__cmo (close : series) (length drift : option Z) :
  (positive_or length 14 <= List.length close)%nat ->
  cmo (Some close) length (Some F1) (Some false) drift None no_kwargs
  = Some (_cmo close (positive_or length 14) (get_drift drift)).
Proof.
  intros Hn. unfold cmo. rewrite verify_series_ok by assumption.
  unfold mode_tal_of. rewrite andb_false_r, offset_and_fill_plain.
  change (scalar_or (Some F1) (of_Z 100)) with F1.
  unfold cmo_bundled, _cmo. now rewrite scale_1.
Qed.

End Indicators.

(** ** The theorems at sample inputs *)

Lemma t3_chained_ema_witness :
  let close := prices [1; 2; 4; 3; 5]%Z in
  let e1 := ema ema_seeded_at no_kwargs close 2 in
  let e2 := ema ema_seeded_at no_kwargs e1 2 in
  let e3 := ema ema_seeded_at no_kwargs e2 2 in
  let e4 := ema ema_seeded_at no_kwargs e3 2 in
  let e5 := ema ema_seeded_at no_kwargs e4 2 in
  let e6 := ema ema_seeded_at no_kwargs e5 2 in
  t3 false (fun _ _ _ _ => NaN) ema_seeded_at (Some close) (Some 2%Z)
     (Some (Fin (Q2Qc (1 # 2)))) None None no_kwargs
  = Some (T3_formula (Q2Qc (1 # 2)) e3 e4 e5 e6).
Proof.
  intros close e1 e2 e3 e4 e5 e6.
  apply (t3_chained_ema false (fun _ _ _ _ => NaN) ema_seeded_at
           close (Some 2%Z) (Q2Qc (1 # 2)) None None no_kwargs);
    try reflexivity.
  simpl. lia.
Defined.



Lemma smi_oscillator_is_difference_witness :
  exists r1 r2 r3,
    smi (fun c _ _ _ _ i => (iloc c i, iloc c i))
        (Some (prices [1; 2; 4; 3; 5; 6]%Z)) (Some 2%Z) (Some 3%Z) (Some 2%Z)
        None (Some 1%Z) no_kwargs
      = Some (r1, r2, r3)
    /\ r3 = ssub r1 r2.
Proof.
  do 3 eexists. split; [reflexivity|].
  apply (smi_oscillator_is_difference (fun c _ _ _ _ i => (iloc c i, iloc c i))
           (Some (prices [1; 2; 4; 3; 5; 6]%Z)) (Some 2%Z) (Some 3%Z)
           (Some 2%Z) None (Some 1%Z) no_kwargs);
    reflexivity.
Defined.

Lemma pvi_accumulates_witness :
  exists r,
    pvi echo_at echo_at (Some (prices [1; 2; 4; 3; 5]%Z))
        (Some (prices [7; 9; (-8); 9; 6]%Z)) (Some 2%Z) None None no_kwargs
      = Some r
    /\ iloc r 2 = iloc r 1.
Proof.
  eexists. split; [reflexivity|].
  refine (proj2 (pvi_accumulates echo_at echo_at (prices [1; 2; 4; 3; 5]%Z)
                   (prices [7; 9; (-8); 9; 6]%Z) (Some 2%Z) None _ 2
                   eq_refl _) _).
  - simpl. lia.
  - discriminate.
Defined.

Lemma cmo_unit_scalar_is__cmo_witness :
  cmo false (fun _ _ _ => NaN) echo_at (Some (prices [1; 2; 4; 3; 5]%Z))
      (Some 2%Z) (Some F1) (Some false) None None no_kwargs
  = Some (_cmo (prices [1; 2; 4; 3; 5]%Z) 2 1).
Proof.
  apply (cmo_unit_scalar_is__cmo false (fun _ _ _ => NaN) echo_at
           (prices [1; 2; 4; 3; 5]%Z) (Some 2%Z) None).
  simpl. lia.
Defined.


Lemma constant_fill_leaves_no_null_witness :
  exists r,
    vidya (Some (prices [1; 2; 4; 3; 5]%Z)) (Some 2%Z) None None
          {| kw_fillna := Some F0; kw_fill_method := None;
             kw_lookahead := None; kw_adjust := None; kw_presma := None |}
      = Some r
    /\ isnull (iloc r 0) = false.
Proof.
  eexists. split; [reflexivity|].
  destruct (constant_fill_leaves_no_null false (fun _ _ _ _ => NaN)
              (fun _ _ _ => NaN) ema_seeded_at echo_at
              (fun _ _ c n i => iloc c i)
              (fun c _ _ _ _ i => (iloc c i, iloc c i)) echo_at echo_at
              {| kw_fillna := Some F0; kw_fill_method := None;
                 kw_lookahead := None; kw_adjust := None;
                 kw_presma := None |}
              F0 eq_refl eq_refl)
    as (_ & _ & _ & _ & _ & Hv & _).
  apply (Hv (Some (prices [1; 2; 4; 3; 5]%Z)) (Some 2%Z) None None _ 0%nat
           eq_refl).
  simpl. lia.
Defined.

Lemma fillna_makes_fill_method_idle_witness :
  vidya (Some (prices [1; 2; 4; 3; 5]%Z)) (Some 2%Z) None None
        {| kw_fillna := Some F0; kw_fill_method := Some Bfill;
           kw_lookahead := None; kw_adjust := None; kw_presma := None |}
  = vidya (Some (prices [1; 2; 4; 3; 5]%Z)) (Some 2%Z) None None
          {| kw_fillna := Some F0; kw_fill_method := None;
             kw_lookahead := None; kw_adjust := None; kw_presma := None |}.
Proof.
  destruct (fillna_makes_fill_method_idle false (fun _ _ _ => NaN)
              ema_seeded_at echo_at (fun _ _ c n i => iloc c i)
              (fun c _ _ _ _ i => (iloc c i, iloc c i)) echo_at echo_at
              {| kw_fillna := Some F0; kw_fill_method := Some Bfill;
                 kw_lookahead := None; kw_adjust := None;
                 kw_presma := None |}
              {| kw_fillna := Some F0; kw_fill_method := None;
                 kw_lookahead := None; kw_adjust := None;
                 kw_presma := None |}
              F0 eq_refl eq_refl eq_refl eq_refl eq_refl)
    as (_ & _ & _ & _ & Hv & _).
  apply Hv.
Defined.

Lemma smi_fast_slow_symmetric_witness :
  smi (fun c _ _ _ _ i => (iloc c i, iloc c i))
      (Some (prices [1; 2; 4; 3; 5; 6]%Z)) (Some 3%Z) (Some 2%Z) (Some 2%Z)
      None None no_kwargs
  = smi (fun c _ _ _ _ i => (iloc c i, iloc c i))
        (Some (prices [1; 2; 4; 3; 5; 6]%Z)) (Some 2%Z) (Some 3%Z) (Some 2%Z)
        None None no_kwargs.
Proof.
  apply (smi_fast_slow_symmetric (fun c _ _ _ _ i => (iloc c i, iloc c i)));
    lia.
Defined.
